(** * The compilation cache of src/codegen/compilation-cache.cc

    A shallow embedding of the four cache regions (script, eval-global,
    eval-contextual, regexp), of the origin check of the script region and of
    the generational ageing, together with the properties of the
    specification that are settled on it.

    Conventions.  A [Handle<T>] is the object it points to; a
    [MaybeHandle<T>] is an [option]; a table slot holding
    [undefined_value()] is [None].  Every table is referenced from exactly
    one slot between two operations (the only copy, in
    [CompilationCacheRegExp::Age], clears or overwrites its source before
    the loop ends), so tables are passed by value. *)

From Stdlib Require Import ZArith Lia.
From stdpp Require Import base decidable option list strings gmap.

(** ** Objects of the managed heap *)

Inductive LanguageMode := kSloppy | kStrict.

#[global] Instance LanguageMode_eq_dec : EqDecision LanguageMode.
Proof. solve_decision. Defined.

(** The objects that occur as script names and as host-defined options:
    the undefined value, a string with its contents, a small integer, and
    any other object, known by its identity only. *)
Inductive Object :=
| Undefined
| Str (s : string)
| Smi (n : Z)
| HeapObject (address : nat).

Definition IsUndefined (o : Object) : bool :=
  match o with Undefined => true | _ => false end.

Definition IsString (o : Object) : bool :=
  match o with Str _ => true | _ => false end.

(** [String::Equals] compares two strings by content.  It is only called
    after both objects passed [IsString]; the cast of another object is not
    given a meaning by the source, the model answers [false] there. *)
Definition String_Equals (a b : Object) : bool :=
  match a, b with
  | Str s, Str t => bool_decide (s = t)
  | _, _ => false
  end.

Definition FixedArray := list Object.

Definition empty_fixed_array : FixedArray := [].

Record ScriptOriginOptions := { Flags : Z }.

Module Script.
Record t := mk {
  name : Object;
  line_offset : Z;
  column_offset : Z;
  origin_options : ScriptOriginOptions;
  host_defined_options : FixedArray
}.
End Script.

Module ScriptDetails.
Record t := mk {
  name_obj : option Object;
  line_offset : Z;
  column_offset : Z;
  origin_options : ScriptOriginOptions;
  host_defined_options : option FixedArray
}.
End ScriptDetails.

Module SharedFunctionInfo.
(** [identity] stands for the address of the object: the eval caches key
    on the identity of the enclosing function.  [BytecodeArray_IsOld] is
    [GetBytecodeArray(isolate).IsOld()], read only when
    [HasBytecodeArray] holds. *)
Record t := mk {
  identity : nat;
  script : Script.t;
  language_mode : LanguageMode;
  HasBytecodeArray : bool;
  BytecodeArray_IsOld : bool
}.
End SharedFunctionInfo.

Definition FeedbackCell := nat.

Inductive Context :=
| NativeContext (identity : nat)
| ScopedContext (identity : nat) (native : nat).

Definition IsNativeContext (context : Context) : bool :=
  match context with NativeContext _ => true | ScopedContext _ _ => false end.

Definition native_context (context : Context) : Context :=
  match context with
  | NativeContext i => NativeContext i
  | ScopedContext _ n => NativeContext n
  end.

Definition context_identity (context : Context) : nat :=
  match context with NativeContext i => i | ScopedContext i _ => i end.

(** ** The origin check of the script region *)

Section Origin.
(** [Object::StrictEquals] is declared outside these sources; the check is
    stated for any such comparison. *)
Variable StrictEquals : Object -> Object -> bool.

(** The loop [for (int i = 0; i < length; i++)] of [HasOrigin]: [fuel] is
    [length - i].  Both arrays have [length] elements when it is entered,
    so [get(i)] is in range. *)
Fixpoint HasOrigin_options (fuel : nat) (i : nat)
    (host_defined_options script_options : FixedArray) : bool :=
  match fuel with
  | O => true
  | S fuel' =>
    match host_defined_options !! i, script_options !! i with
    | Some a, Some b =>
      if negb (StrictEquals a b) then false
      else HasOrigin_options fuel' (S i) host_defined_options script_options
    | _, _ => false
    end
  end.

Definition HasOrigin (function_info : SharedFunctionInfo.t)
    (script_details : ScriptDetails.t) : bool :=
  let script := SharedFunctionInfo.script function_info in
  match ScriptDetails.name_obj script_details with
  | None => IsUndefined (Script.name script)
  | Some name =>
    if negb (ScriptDetails.line_offset script_details
             =? Script.line_offset script)%Z
    then false
    else if negb (ScriptDetails.column_offset script_details
                  =? Script.column_offset script)%Z
    then false
    else if negb (IsString name) || negb (IsString (Script.name script))
    then false
    else if negb (Flags (ScriptDetails.origin_options script_details)
                  =? Flags (Script.origin_options script))%Z
    then false
    else if negb (String_Equals name (Script.name script))
    then false
    else
      let host_defined_options :=
        match ScriptDetails.host_defined_options script_details with
        | Some options => options
        | None => empty_fixed_array
        end in
      let script_options := Script.host_defined_options script in
      let length := length host_defined_options in
      if negb (bool_decide (length = List.length script_options)) then false
      else HasOrigin_options length 0 host_defined_options script_options
  end.
End Origin.

(** ** The cache table *)

(** Keys of table entries.  A structural key is a [FixedArray] in the
    source; the key of the dummy entry of the eval cache is the hash of the
    structural key as a [Number]. *)
Inductive Key :=
| HashKey (hash : Z)
| ScriptKey (source : string) (language_mode : LanguageMode)
| EvalKey (source : string) (outer_info : nat) (native_context : nat)
    (language_mode : LanguageMode) (position : Z)
| RegExpKey (source : string) (flags : Z).

#[global] Instance Key_eq_dec : EqDecision Key.
Proof. solve_decision. Defined.

Definition Key_IsNumber (key : Key) : bool :=
  match key with HashKey _ => true | _ => false end.

(** Primary values of table entries. *)
Inductive Value :=
| UndefinedValue
| SmiValue (n : Z)
| InfoValue (info : SharedFunctionInfo.t)
| DataValue (data : FixedArray).

Definition Value_IsFixedArray (v : Value) : bool :=
  match v with DataValue _ => true | _ => false end.

Record Entry := mkEntry {
  entry_key : Key;
  entry_value : Value;
  entry_cell : option FeedbackCell
}.

Record InfoCellPair := mkInfoCellPair {
  shared : option SharedFunctionInfo.t;
  feedback_cell : option FeedbackCell
}.

Definition has_shared (p : InfoCellPair) : bool := bool_decide (is_Some (shared p)).

Definition empty_InfoCellPair : InfoCellPair := mkInfoCellPair None None.

(** Initial size of each compilation cache table allocated. *)
Definition kInitialCacheSize : Z := 64%Z.

(** Modelled from the spec: the class [CompilationCacheTable]
    (src/objects/compilation-cache-table.h) is not among the sources.  The
    spec describes it as an open-addressed mapping from a key to a stored
    value with lookup, insert-or-replace (an existing key is overwritten in
    place, growth returns the table to use from then on), remove-by-position
    and an iteration over positions that skips removed and never-filled
    slots.  A table is the list of its slots, a position an index into it;
    [None] is a slot that is removed or was never filled.  A new key goes
    to the first such slot and, when there is none, to a slot added at the
    end. *)
Module CompilationCacheTable.

Abbreviation t := (list (option Entry)).

Definition New (at_least_space_for : Z) : t :=
  replicate (Z.to_nat at_least_space_for) None.

Definition holds (key : Key) (slot : option Entry) : Prop :=
  entry_key <$> slot = Some key.

#[global] Instance holds_dec key slot : Decision (holds key slot).
Proof. unfold holds. apply _. Defined.

Definition FindEntry (table : t) (key : Key) : option nat :=
  fst <$> list_find (holds key) table.

Definition IterateEntries (table : t) : list nat := seq 0 (length table).

Definition ToKey (table : t) (entry : nat) : option Key :=
  match table !! entry with
  | Some (Some e) => Some (entry_key e)
  | _ => None
  end.

Definition PrimaryValueAt (table : t) (entry : nat) : Value :=
  match table !! entry with
  | Some (Some e) => entry_value e
  | _ => UndefinedValue
  end.

Definition FeedbackCellAt (table : t) (entry : nat) : option FeedbackCell :=
  match table !! entry with
  | Some (Some e) => entry_cell e
  | _ => None
  end.

Definition SetPrimaryValueAt (table : t) (entry : nat) (value : Value) : t :=
  alter (fmap (fun e => mkEntry (entry_key e) value (entry_cell e))) entry table.

Definition RemoveEntry (table : t) (entry : nat) : t :=
  <[entry := None]> table.

Definition Insert (table : t) (key : Key) (value : Value)
    (cell : option FeedbackCell) : t :=
  let e := Some (mkEntry key value cell) in
  match FindEntry table key with
  | Some entry => <[entry := e]> table
  | None =>
    match list_find (fun slot => slot = None) table with
    | Some (entry, _) => <[entry := e]> table
    | None => table ++ [e]
    end
  end.

Definition LookupScript (table : t) (source : string)
    (language_mode : LanguageMode) : option SharedFunctionInfo.t :=
  match FindEntry table (ScriptKey source language_mode) with
  | Some entry =>
    match PrimaryValueAt table entry with
    | InfoValue info => Some info
    | _ => None
    end
  | None => None
  end.

Definition PutScript (table : t) (source : string)
    (language_mode : LanguageMode) (value : SharedFunctionInfo.t) : t :=
  Insert table (ScriptKey source language_mode) (InfoValue value) None.

Definition LookupEval (table : t) (source : string)
    (outer_info : SharedFunctionInfo.t) (native_context : Context)
    (language_mode : LanguageMode) (position : Z) : InfoCellPair :=
  match FindEntry table
          (EvalKey source (SharedFunctionInfo.identity outer_info)
             (context_identity native_context) language_mode position) with
  | Some entry =>
    match PrimaryValueAt table entry with
    | InfoValue info => mkInfoCellPair (Some info) (FeedbackCellAt table entry)
    | _ => empty_InfoCellPair
    end
  | None => empty_InfoCellPair
  end.

(** The language mode of the key is the one of the function stored.  No
    dummy entry is created here: the spec leaves its creation out and
    treats the dummy entry as seeded beforehand. *)
Definition PutEval (table : t) (source : string)
    (outer_info value : SharedFunctionInfo.t) (native_context : Context)
    (feedback_cell : FeedbackCell) (position : Z) : t :=
  Insert table
    (EvalKey source (SharedFunctionInfo.identity outer_info)
       (context_identity native_context)
       (SharedFunctionInfo.language_mode value) position)
    (InfoValue value) (Some feedback_cell).

Definition LookupRegExp (table : t) (source : string) (flags : Z) : Value :=
  match FindEntry table (RegExpKey source flags) with
  | Some entry => PrimaryValueAt table entry
  | None => UndefinedValue
  end.

Definition PutRegExp (table : t) (source : string) (flags : Z)
    (value : FixedArray) : t :=
  Insert table (RegExpKey source flags) (DataValue value) None.

(** Modelled from the spec: [CompilationCacheTable::Remove] is not among
    the sources.  The spec has it remove every entry whose stored value is
    that exact artifact; the artifact is known by its identity. *)
Definition Remove_slot (value : SharedFunctionInfo.t) (slot : option Entry)
    : option Entry :=
  match slot with
  | Some e =>
    match entry_value e with
    | InfoValue info =>
      if bool_decide (SharedFunctionInfo.identity info
                      = SharedFunctionInfo.identity value)
      then None else slot
    | _ => slot
    end
  | None => None
  end.

Definition Remove (table : t) (value : SharedFunctionInfo.t) : t :=
  Remove_slot value <$> table.

End CompilationCacheTable.

(** ** Counters *)

(** Modelled from the spec: the counters of [src/logging/counters.h] are
    not among the sources; [Increment] adds one to a hit or miss counter. *)
Record Counters := mkCounters {
  compilation_cache_hits : Z;
  compilation_cache_misses : Z
}.

Definition Increment_hits (c : Counters) : Counters :=
  mkCounters (compilation_cache_hits c + 1)%Z (compilation_cache_misses c).

Definition Increment_misses (c : Counters) : Counters :=
  mkCounters (compilation_cache_hits c) (compilation_cache_misses c + 1)%Z.

(** ** The script and eval regions *)

Module CompilationCacheEvalOrScript.

(** [table_] is [None] while it holds the undefined value.  [GetTable]
    hands out a fresh table in that case and does not store it. *)
Definition GetTable (table_ : option CompilationCacheTable.t)
    : CompilationCacheTable.t :=
  match table_ with
  | None => CompilationCacheTable.New kInitialCacheSize
  | Some table => table
  end.

Definition Clear (table_ : option CompilationCacheTable.t)
    : option CompilationCacheTable.t := None.

Definition Remove (table_ : option CompilationCacheTable.t)
    (function_info : SharedFunctionInfo.t)
    : option CompilationCacheTable.t :=
  match table_ with
  | None => None
  | Some table => Some (CompilationCacheTable.Remove table function_info)
  end.

End CompilationCacheEvalOrScript.

Module CompilationCacheScript.
Import CompilationCacheEvalOrScript.

(** One turn of the loop of [Age]: the entry at position [entry].  A value
    that is neither undefined nor a [SharedFunctionInfo] does not occur in a
    script table; the unchecked cast has no defined behaviour on it and the
    model leaves the entry as it is. *)
Definition Age_entry (table : CompilationCacheTable.t) (entry : nat)
    : CompilationCacheTable.t :=
  match CompilationCacheTable.ToKey table entry with
  | None => table
  | Some _ =>
    match CompilationCacheTable.PrimaryValueAt table entry with
    | InfoValue info =>
      if SharedFunctionInfo.HasBytecodeArray info
         && SharedFunctionInfo.BytecodeArray_IsOld info
      then CompilationCacheTable.RemoveEntry table entry
      else table
    | _ => table
    end
  end.

Definition Age (FLAG_isolate_script_cache_ageing : bool)
    (table_ : option CompilationCacheTable.t)
    : option CompilationCacheTable.t :=
  if negb FLAG_isolate_script_cache_ageing then table_
  else
    match table_ with
    | None => None
    | Some table =>
      Some (foldl Age_entry table (CompilationCacheTable.IterateEntries table))
    end.

Definition Lookup (StrictEquals : Object -> Object -> bool)
    (table_ : option CompilationCacheTable.t) (counters : Counters)
    (source : string) (script_details : ScriptDetails.t)
    (language_mode : LanguageMode)
    : option SharedFunctionInfo.t * Counters :=
  let table := GetTable table_ in
  let probe := CompilationCacheTable.LookupScript table source language_mode in
  let result :=
    match probe with
    | Some function_info =>
      if HasOrigin StrictEquals function_info script_details
      then Some function_info else None
    | None => None
    end in
  match result with
  | Some _ => (result, Increment_hits counters)
  | None => (result, Increment_misses counters)
  end.

Definition Put (table_ : option CompilationCacheTable.t) (source : string)
    (language_mode : LanguageMode) (function_info : SharedFunctionInfo.t)
    : option CompilationCacheTable.t :=
  let table := GetTable table_ in
  Some (CompilationCacheTable.PutScript table source language_mode function_info).

End CompilationCacheScript.

Module CompilationCacheEval.
Import CompilationCacheEvalOrScript.

(** One turn of the loop of [Age].  [Smi::ToInt] and
    [SharedFunctionInfo::cast] are unchecked casts: on a value of another
    kind the source has no defined behaviour, and the model leaves the
    entry as it is.  [new_count] is an [int] in the source; the count of a
    dummy entry is positive, so taking one from it does not overflow. *)
Definition Age_entry (table : CompilationCacheTable.t) (entry : nat)
    : CompilationCacheTable.t :=
  match CompilationCacheTable.ToKey table entry with
  | None => table
  | Some key =>
    if Key_IsNumber key then
      match CompilationCacheTable.PrimaryValueAt table entry with
      | SmiValue count =>
        let new_count := (count - 1)%Z in
        if (new_count =? 0)%Z
        then CompilationCacheTable.RemoveEntry table entry
        else CompilationCacheTable.SetPrimaryValueAt table entry
               (SmiValue new_count)
      | _ => table
      end
    else
      match CompilationCacheTable.PrimaryValueAt table entry with
      | InfoValue info =>
        if SharedFunctionInfo.HasBytecodeArray info
           && SharedFunctionInfo.BytecodeArray_IsOld info
        then CompilationCacheTable.RemoveEntry table entry
        else table
      | _ => table
      end
  end.

Definition Age (table_ : option CompilationCacheTable.t)
    : option CompilationCacheTable.t :=
  match table_ with
  | None => None
  | Some table =>
    Some (foldl Age_entry table (CompilationCacheTable.IterateEntries table))
  end.

Definition Lookup (table_ : option CompilationCacheTable.t)
    (counters : Counters) (source : string)
    (outer_info : SharedFunctionInfo.t) (native_context : Context)
    (language_mode : LanguageMode) (position : Z)
    : InfoCellPair * Counters :=
  let table := GetTable table_ in
  let result :=
    CompilationCacheTable.LookupEval table source outer_info native_context
      language_mode position in
  if has_shared result then (result, Increment_hits counters)
  else (result, Increment_misses counters).

Definition Put (table_ : option CompilationCacheTable.t) (source : string)
    (outer_info function_info : SharedFunctionInfo.t)
    (native_context : Context) (feedback_cell : FeedbackCell) (position : Z)
    : option CompilationCacheTable.t :=
  let table := GetTable table_ in
  Some (CompilationCacheTable.PutEval table source outer_info function_info
          native_context feedback_cell position).

End CompilationCacheEval.

(** ** The regexp region *)

Module CompilationCacheRegExp.

(** [tables_] is the array of the generations, generation 0 the newest.
    Its length [kGenerations] is fixed by a header that is not among the
    sources; the source only asserts [kGenerations > 1], and the
    functions take it as a parameter.  Every index the source uses is
    below [kGenerations]; on a shorter list a read out of range is read
    as undefined and a write is dropped. *)
Abbreviation tables := (list (option CompilationCacheTable.t)).

(** [GetTable] stores the table it allocates into the slot. *)
Definition GetTable (tables_ : tables) (generation : nat)
    : CompilationCacheTable.t * tables :=
  match tables_ !! generation with
  | Some (Some table) => (table, tables_)
  | _ =>
    let result := CompilationCacheTable.New kInitialCacheSize in
    (result, <[generation := Some result]> tables_)
  end.

(** The loop [for (int i = kGenerations - 1; i > 0; i--)] of [Age],
    entered with [i]. *)
Fixpoint Age_loop (i : nat) (tables_ : tables) : tables :=
  match i with
  | O => tables_
  | S i' => Age_loop i' (<[i := default None (tables_ !! i')]> tables_)
  end.

Definition Age (kGenerations : nat) (tables_ : tables) : tables :=
  <[0%nat := None]> (Age_loop (kGenerations - 1) tables_).

Definition Clear (kGenerations : nat) (tables_ : tables) : tables :=
  replicate kGenerations None.

Definition Put (tables_ : tables) (source : string) (flags : Z)
    (data : FixedArray) : tables :=
  let '(table, tables_) := GetTable tables_ 0 in
  <[0%nat := Some (CompilationCacheTable.PutRegExp table source flags data)]>
    tables_.

(** The loop [for (generation = 0; generation < kGenerations;
    generation++)] of [Lookup], entered with [generation] and [result];
    [fuel] is [kGenerations - generation].  It returns the result, the
    generation at which the loop was left and the tables. *)
Fixpoint Lookup_loop (fuel : nat) (generation : nat) (result : Value)
    (tables_ : tables) (source : string) (flags : Z)
    : Value * nat * tables :=
  match fuel with
  | O => (result, generation, tables_)
  | S fuel' =>
    let '(table, tables_) := GetTable tables_ generation in
    let result := CompilationCacheTable.LookupRegExp table source flags in
    if Value_IsFixedArray result then (result, generation, tables_)
    else Lookup_loop fuel' (S generation) result tables_ source flags
  end.

Definition Lookup (kGenerations : nat) (tables_ : tables)
    (counters : Counters) (source : string) (flags : Z)
    : option FixedArray * tables * Counters :=
  let '(result, generation, tables_) :=
    Lookup_loop kGenerations 0 UndefinedValue tables_ source flags in
  match result with
  | DataValue data =>
    let tables_ :=
      if negb (generation =? 0) then Put tables_ source flags data
      else tables_ in
    (Some data, tables_, Increment_hits counters)
  | _ => (None, tables_, Increment_misses counters)
  end.

End CompilationCacheRegExp.

(** ** The cache *)

Module CompilationCache.

(** The four regions, the flag, and the two counters of the isolate that
    the cache writes.  Log events are not modelled. *)
Record t := mk {
  counters : Counters;
  script_ : option CompilationCacheTable.t;
  eval_global_ : option CompilationCacheTable.t;
  eval_contextual_ : option CompilationCacheTable.t;
  reg_exp_ : CompilationCacheRegExp.tables;
  enabled_script_and_eval_ : bool
}.

Definition IsEnabledScriptAndEval (this : t) : bool :=
  enabled_script_and_eval_ this.

Definition Remove (this : t) (function_info : SharedFunctionInfo.t) : t :=
  if negb (IsEnabledScriptAndEval this) then this
  else
    mk (counters this)
      (CompilationCacheEvalOrScript.Remove (script_ this) function_info)
      (CompilationCacheEvalOrScript.Remove (eval_global_ this) function_info)
      (CompilationCacheEvalOrScript.Remove (eval_contextual_ this)
         function_info)
      (reg_exp_ this) (enabled_script_and_eval_ this).

Section Operations.
Variable kGenerations : nat.
Variable StrictEquals : Object -> Object -> bool.

Definition LookupScript (this : t) (source : string)
    (script_details : ScriptDetails.t) (language_mode : LanguageMode)
    : option SharedFunctionInfo.t * t :=
  if negb (IsEnabledScriptAndEval this) then (None, this)
  else
    let '(result, counters') :=
      CompilationCacheScript.Lookup StrictEquals (script_ this)
        (counters this) source script_details language_mode in
    (result,
     mk counters' (script_ this) (eval_global_ this)
       (eval_contextual_ this) (reg_exp_ this)
       (enabled_script_and_eval_ this)).

Definition LookupEval (this : t) (source : string)
    (outer_info : SharedFunctionInfo.t) (context : Context)
    (language_mode : LanguageMode) (position : Z) : InfoCellPair * t :=
  if negb (IsEnabledScriptAndEval this) then (empty_InfoCellPair, this)
  else
    let '(result, counters') :=
      if IsNativeContext context then
        CompilationCacheEval.Lookup (eval_global_ this) (counters this)
          source outer_info context language_mode position
      else
        CompilationCacheEval.Lookup (eval_contextual_ this)
          (counters this) source outer_info (native_context context)
          language_mode position in
    (result,
     mk counters' (script_ this) (eval_global_ this)
       (eval_contextual_ this) (reg_exp_ this)
       (enabled_script_and_eval_ this)).

Definition LookupRegExp (this : t) (source : string) (flags : Z)
    : option FixedArray * t :=
  let '(result, tables', counters') :=
    CompilationCacheRegExp.Lookup kGenerations (reg_exp_ this)
      (counters this) source flags in
  (result,
   mk counters' (script_ this) (eval_global_ this) (eval_contextual_ this)
     tables' (enabled_script_and_eval_ this)).

Definition PutScript (this : t) (source : string)
    (language_mode : LanguageMode) (function_info : SharedFunctionInfo.t)
    : t :=
  if negb (IsEnabledScriptAndEval this) then this
  else
    mk (counters this)
      (CompilationCacheScript.Put (script_ this) source language_mode
         function_info)
      (eval_global_ this) (eval_contextual_ this) (reg_exp_ this)
      (enabled_script_and_eval_ this).

Definition PutEval (this : t) (source : string)
    (outer_info : SharedFunctionInfo.t) (context : Context)
    (function_info : SharedFunctionInfo.t) (feedback_cell : FeedbackCell)
    (position : Z) : t :=
  if negb (IsEnabledScriptAndEval this) then this
  else if IsNativeContext context then
    mk (counters this) (script_ this)
      (CompilationCacheEval.Put (eval_global_ this) source outer_info
         function_info context feedback_cell position)
      (eval_contextual_ this) (reg_exp_ this)
      (enabled_script_and_eval_ this)
  else
    mk (counters this) (script_ this) (eval_global_ this)
      (CompilationCacheEval.Put (eval_contextual_ this) source outer_info
         function_info (native_context context) feedback_cell position)
      (reg_exp_ this) (enabled_script_and_eval_ this).

Definition PutRegExp (this : t) (source : string) (flags : Z)
    (data : FixedArray) : t :=
  mk (counters this) (script_ this) (eval_global_ this)
    (eval_contextual_ this)
    (CompilationCacheRegExp.Put (reg_exp_ this) source flags data)
    (enabled_script_and_eval_ this).

Definition Clear (this : t) : t :=
  mk (counters this)
    (CompilationCacheEvalOrScript.Clear (script_ this))
    (CompilationCacheEvalOrScript.Clear (eval_global_ this))
    (CompilationCacheEvalOrScript.Clear (eval_contextual_ this))
    (CompilationCacheRegExp.Clear kGenerations (reg_exp_ this))
    (enabled_script_and_eval_ this).

Definition MarkCompactPrologue (FLAG_isolate_script_cache_ageing : bool)
    (this : t) : t :=
  mk (counters this)
    (CompilationCacheScript.Age FLAG_isolate_script_cache_ageing
       (script_ this))
    (CompilationCacheEval.Age (eval_global_ this))
    (CompilationCacheEval.Age (eval_contextual_ this))
    (CompilationCacheRegExp.Age kGenerations (reg_exp_ this))
    (enabled_script_and_eval_ this).

Definition EnableScriptAndEval (this : t) : t :=
  mk (counters this) (script_ this) (eval_global_ this)
    (eval_contextual_ this) (reg_exp_ this) true.

Definition DisableScriptAndEval (this : t) : t :=
  Clear
    (mk (counters this) (script_ this) (eval_global_ this)
       (eval_contextual_ this) (reg_exp_ this) false).
End Operations.

End CompilationCache.

(** ** The marking barrier of a thread (src/heap/heap-write-barrier.cc) *)

Module WriteBarrier.

(** [current_marking_barrier] is a thread-local pointer, null at first: the
    variables of all threads are a finite map from the thread to the
    barrier it points to, with no entry for a thread whose pointer is
    null.  A barrier is known by its address. *)
Abbreviation MarkingBarrier := nat.
Abbreviation thread_locals := (gmap nat MarkingBarrier).

(** [SetForThread], called on [thread]: the pointer the thread had, and
    the variables afterwards. *)
Definition SetForThread (current_marking_barrier : thread_locals)
    (thread : nat) (marking_barrier : option MarkingBarrier)
    : option MarkingBarrier * thread_locals :=
  let existing := current_marking_barrier !! thread in
  (existing,
   partial_alter (fun _ => marking_barrier) thread current_marking_barrier).

(** [CurrentMarkingBarrier], called on [thread].  The source asserts that
    the pointer is not null; [None] is that failure.  The check against
    the heap of [verification_candidate] exists in debug builds only and
    reads no state of this file. *)
Definition CurrentMarkingBarrier (current_marking_barrier : thread_locals)
    (thread : nat) : option MarkingBarrier :=
  current_marking_barrier !! thread.

End WriteBarrier.

(** * Notions used in the statements *)

(** The entry a lookup of [key] finds: the first slot that holds it. *)
Definition EntryFor (table : CompilationCacheTable.t) (key : Key)
    : option Entry :=
  list_find (CompilationCacheTable.holds key) table ≫= snd.

(** What probing [generation] for a key yields: the value stored under the
    key in the table of that generation; nothing in an absent one. *)
Definition probe (tbls : CompilationCacheRegExp.tables) (generation : nat)
    (source : string) (flags : Z)
    : Value :=
  match tbls !! generation with
  | Some (Some table) => CompilationCacheTable.LookupRegExp table source flags
  | _ => UndefinedValue
  end.

(** What [GetTable] leaves in a slot. *)
Definition allocated (slot : option CompilationCacheTable.t)
    : option CompilationCacheTable.t :=
  Some (default (CompilationCacheTable.New kInitialCacheSize) slot).

(** The tables after the generations from [lo] up to, not including, [hi]
    were probed. *)
Definition probed (lo hi : nat) (tbls : CompilationCacheRegExp.tables)
    (generation : nat)
    : option (option CompilationCacheTable.t) :=
  if bool_decide (lo ≤ generation < hi)
  then allocated <$> tbls !! generation
  else tbls !! generation.

(** Operations on the regexp region, to state what happens between two
    collections. *)
Inductive RegExpOp :=
| OpPut (source : string) (flags : Z) (data : FixedArray)
| OpLookup (source : string) (flags : Z).

Definition RegExpOp_key (op : RegExpOp) : string * Z :=
  match op with
  | OpPut source flags _ => (source, flags)
  | OpLookup source flags => (source, flags)
  end.

Definition RegExpOp_run (kGenerations : nat)
    (state : CompilationCacheRegExp.tables * Counters) (op : RegExpOp)
    : CompilationCacheRegExp.tables * Counters :=
  match op with
  | OpPut source flags data =>
    (CompilationCacheRegExp.Put state.1 source flags data, state.2)
  | OpLookup source flags =>
    let '(_, tables', counters') :=
      CompilationCacheRegExp.Lookup kGenerations state.1 state.2 source flags
    in (tables', counters')
  end.

(** What one pass of [CompilationCacheEval::Age] does to a slot. *)
Definition Eval_Age_slot (slot : option Entry) : option Entry :=
  match slot with
  | None => None
  | Some e =>
    if Key_IsNumber (entry_key e) then
      match entry_value e with
      | SmiValue count =>
        if (count - 1 =? 0)%Z then None
        else Some (mkEntry (entry_key e) (SmiValue (count - 1)) (entry_cell e))
      | _ => Some e
      end
    else
      match entry_value e with
      | InfoValue info =>
        if SharedFunctionInfo.HasBytecodeArray info
           && SharedFunctionInfo.BytecodeArray_IsOld info
        then None else Some e
      | _ => Some e
      end
  end.

(** The state [this] with another flag, and with other counters. *)
Definition with_flag (enabled : bool) (this : CompilationCache.t)
    : CompilationCache.t :=
  CompilationCache.mk (CompilationCache.counters this)
    (CompilationCache.script_ this) (CompilationCache.eval_global_ this)
    (CompilationCache.eval_contextual_ this) (CompilationCache.reg_exp_ this)
    enabled.

Definition with_counters (c : Counters) (this : CompilationCache.t)
    : CompilationCache.t :=
  CompilationCache.mk c
    (CompilationCache.script_ this) (CompilationCache.eval_global_ this)
    (CompilationCache.eval_contextual_ this) (CompilationCache.reg_exp_ this)
    (CompilationCache.enabled_script_and_eval_ this).

(** Exactly one of the two counters went up, by one. *)
Definition counted_once (before after : Counters) : Prop :=
  (compilation_cache_hits after = (compilation_cache_hits before + 1)%Z
   ∧ compilation_cache_misses after = compilation_cache_misses before)
  ∨ (compilation_cache_hits after = compilation_cache_hits before
     ∧ compilation_cache_misses after
       = (compilation_cache_misses before + 1)%Z).

(** A cache with every table absent, the flag set and the counters at
    [c]: what [Clear] leaves of an enabled cache. *)
Definition empty_cache (kGenerations : nat) (c : Counters)
    : CompilationCache.t :=
  CompilationCache.Clear kGenerations
    (CompilationCache.mk c None None None [] true).

(** A comparison to put for [StrictEquals] in examples: equal contents for
    strings and small integers, the same object otherwise. *)
Definition StrictEquals_sample (a b : Object) : bool :=
  match a, b with
  | Undefined, Undefined => true
  | Str s, Str t => bool_decide (s = t)
  | Smi m, Smi n => bool_decide (m = n)
  | HeapObject x, HeapObject y => bool_decide (x = y)
  | _, _ => false
  end.

(** Two scripts without a name that differ in their line offset, a
    function of the first, and the request for the second. *)
Definition unnamed_script_A : Script.t :=
  Script.mk Undefined 0 0 {| Flags := 0 |} [].

Definition function_of_A : SharedFunctionInfo.t :=
  SharedFunctionInfo.mk 1 unnamed_script_A kSloppy true false.

Definition request_of_unnamed_B : ScriptDetails.t :=
  ScriptDetails.mk None 7 0 {| Flags := 0 |} None.

Definition request_named (name : string) (line : Z) : ScriptDetails.t :=
  ScriptDetails.mk (Some (Str name)) line 0 {| Flags := 0 |} None.

Definition function_named (name : string) (line : Z) : SharedFunctionInfo.t :=
  SharedFunctionInfo.mk 2 (Script.mk (Str name) line 0 {| Flags := 0 |} [])
    kSloppy true false.

(** The data a lookup of the regexp region finds for a key among the [n]
    generations from [generation] on: that of the first one that holds
    data for the key. *)
Fixpoint first_data (n generation : nat) (tbls : CompilationCacheRegExp.tables)
    (source : string) (flags : Z) : option FixedArray :=
  match n with
  | O => None
  | S n' =>
    match probe tbls generation source flags with
    | DataValue data => Some data
    | _ => first_data n' (S generation) tbls source flags
    end
  end.

(** The function has bytecode and that bytecode is old: what the ageing of
    the script and eval regions removes. *)
Definition bytecode_is_old (info : SharedFunctionInfo.t) : bool :=
  SharedFunctionInfo.HasBytecodeArray info
  && SharedFunctionInfo.BytecodeArray_IsOld info.

(** What one pass of [CompilationCacheScript::Age] does to a slot. *)
Definition Script_Age_slot (slot : option Entry) : option Entry :=
  match slot with
  | None => None
  | Some e =>
    match entry_value e with
    | InfoValue info => if bytecode_is_old info then None else Some e
    | _ => Some e
    end
  end.

(** A function whose bytecode is old, for examples. *)
Definition old_function : SharedFunctionInfo.t :=
  SharedFunctionInfo.mk 4 unnamed_script_A kSloppy true true.

(** A run of [SetForThread] calls, each given as the calling thread and the
    barrier it sets. *)
Definition SetForThread_calls (calls : list (nat * option nat))
    (current_marking_barrier : gmap nat nat) : gmap nat nat :=
  foldl (fun s call => (WriteBarrier.SetForThread s call.1 call.2).2)
    current_marking_barrier calls.

(** The operations of the cache that can change it, to state what none of
    them does.  [Iterate] hands the slots to a visitor of the collector and
    is not among them. *)
Inductive CacheOp :=
| OpLookupScript (source : string) (script_details : ScriptDetails.t)
    (language_mode : LanguageMode)
| OpLookupEval (source : string) (outer_info : SharedFunctionInfo.t)
    (context : Context) (language_mode : LanguageMode) (position : Z)
| OpLookupRegExp (source : string) (flags : Z)
| OpPutScript (source : string) (language_mode : LanguageMode)
    (function_info : SharedFunctionInfo.t)
| OpPutEval (source : string) (outer_info : SharedFunctionInfo.t)
    (context : Context) (function_info : SharedFunctionInfo.t)
    (feedback_cell : FeedbackCell) (position : Z)
| OpPutRegExp (source : string) (flags : Z) (data : FixedArray)
| OpRemove (function_info : SharedFunctionInfo.t)
| OpClear
| OpMarkCompactPrologue (FLAG_isolate_script_cache_ageing : bool)
| OpEnableScriptAndEval
| OpDisableScriptAndEval.

(** The cache after the operation. *)
Definition CacheOp_run (kGenerations : nat)
    (StrictEquals : Object -> Object -> bool) (this : CompilationCache.t)
    (op : CacheOp) : CompilationCache.t :=
  match op with
  | OpLookupScript source script_details language_mode =>
    (CompilationCache.LookupScript StrictEquals this source script_details
       language_mode).2
  | OpLookupEval source outer_info context language_mode position =>
    (CompilationCache.LookupEval this source outer_info context language_mode
       position).2
  | OpLookupRegExp source flags =>
    (CompilationCache.LookupRegExp kGenerations this source flags).2
  | OpPutScript source language_mode function_info =>
    CompilationCache.PutScript this source language_mode function_info
  | OpPutEval source outer_info context function_info feedback_cell position =>
    CompilationCache.PutEval this source outer_info context function_info
      feedback_cell position
  | OpPutRegExp source flags data =>
    CompilationCache.PutRegExp this source flags data
  | OpRemove function_info => CompilationCache.Remove this function_info
  | OpClear => CompilationCache.Clear kGenerations this
  | OpMarkCompactPrologue FLAG_isolate_script_cache_ageing =>
    CompilationCache.MarkCompactPrologue kGenerations
      FLAG_isolate_script_cache_ageing this
  | OpEnableScriptAndEval => CompilationCache.EnableScriptAndEval this
  | OpDisableScriptAndEval =>
    CompilationCache.DisableScriptAndEval kGenerations this
  end.

(** * Properties *)

(** ** Facts about the table *)

Section TableFacts.
Import CompilationCacheTable.
Implicit Types (table : CompilationCacheTable.t) (key : Key).

Lemma FindEntry_Some table key entry :
  FindEntry table key = Some entry →
  ∃ e, table !! entry = Some (Some e) ∧ entry_key e = key
       ∧ EntryFor table key = Some e.
Proof.
  unfold FindEntry, EntryFor. intros Hfind.
  destruct (list_find (holds key) table) as [[i slot]|] eqn:Hl; [|done].
  simpl in Hfind. injection Hfind as ->.
  apply list_find_Some in Hl as (Hi & Hk & _).
  destruct slot as [e|]; [|done].
  exists e. unfold holds in Hk. simpl in Hk. by simplify_eq.
Qed.

Lemma FindEntry_None table key :
  FindEntry table key = None → EntryFor table key = None.
Proof.
  unfold FindEntry, EntryFor.
  by destruct (list_find (holds key) table) as [[i slot]|].
Qed.

Lemma PrimaryValueAt_lookup table entry e :
  table !! entry = Some (Some e) → PrimaryValueAt table entry = entry_value e.
Proof. unfold PrimaryValueAt. by intros ->. Qed.

Lemma LookupRegExp_EntryFor table source flags :
  LookupRegExp table source flags
  = from_option entry_value UndefinedValue
      (EntryFor table (RegExpKey source flags)).
Proof.
  unfold LookupRegExp.
  destruct (FindEntry table (RegExpKey source flags)) as [i|] eqn:Hf.
  - apply FindEntry_Some in Hf as (e & Hi & _ & ->).
    by rewrite (PrimaryValueAt_lookup _ _ _ Hi).
  - by rewrite (FindEntry_None _ _ Hf).
Qed.

Lemma LookupScript_EntryFor table source language_mode :
  LookupScript table source language_mode
  = match EntryFor table (ScriptKey source language_mode) with
    | Some (mkEntry _ (InfoValue info) _) => Some info
    | _ => None
    end.
Proof.
  unfold LookupScript.
  destruct (FindEntry table (ScriptKey source language_mode)) as [i|] eqn:Hf.
  - apply FindEntry_Some in Hf as (e & Hi & _ & ->).
    rewrite (PrimaryValueAt_lookup _ _ _ Hi). by destruct e.
  - by rewrite (FindEntry_None _ _ Hf).
Qed.

Lemma EntryFor_New n key : EntryFor (New n) key = None.
Proof.
  unfold EntryFor, New.
  assert (list_find (holds key) (replicate (Z.to_nat n) (None : option Entry))
          = None) as ->; [|done].
  apply list_find_None, Forall_replicate. by intros ?.
Qed.

Lemma list_find_holds_insert table key i slot :
  ¬ holds key slot → (∀ old, table !! i = Some old → ¬ holds key old) →
  list_find (holds key) (<[i := slot]> table) = list_find (holds key) table.
Proof.
  intros Hnew Hold. revert i Hold.
  induction table as [|x table IH]; intros [|i] Hold; simpl; try done.
  - rewrite !decide_False; [|by apply Hold|done]. done.
  - case_decide; [done|]. by rewrite IH; [|intros old ?; apply Hold].
Qed.

Lemma list_find_holds_snoc table key slot :
  ¬ holds key slot →
  list_find (holds key) (table ++ [slot]) = list_find (holds key) table.
Proof.
  intros Hnew. induction table as [|x table IH]; simpl.
  - by rewrite decide_False.
  - case_decide; [done|]. by rewrite IH.
Qed.

Lemma EntryFor_Insert table key value cell key' :
  EntryFor (Insert table key value cell) key'
  = if decide (key = key') then Some (mkEntry key value cell)
    else EntryFor table key'.
Proof.
  set (e := mkEntry key value cell).
  assert (Hne : key ≠ key' → ¬ holds key' (Some e)).
  { unfold holds. simpl. congruence. }
  assert (Hfree : ∀ i, table !! i = Some None →
            ∀ old, table !! i = Some old → ¬ holds key' old).
  { intros i Hi old Ho. rewrite Hi in Ho. by injection Ho as <-. }
  unfold Insert. fold e.
  destruct (FindEntry table key) as [i|] eqn:Hf.
  - unfold FindEntry in Hf.
    destruct (list_find (holds key) table) as [[i' slot]|] eqn:Hl; [|done].
    simpl in Hf. injection Hf as ->.
    apply list_find_Some in Hl as (Hi & Hk & Hleast).
    case_decide as Hkk.
    + subst key'. unfold EntryFor.
      assert (list_find (holds key) (<[i := Some e]> table)
              = Some (i, Some e)) as ->; [|done].
      apply list_find_Some. split_and!.
      * apply list_lookup_insert_eq. by eapply lookup_lt_Some.
      * done.
      * intros j y Hj Hlt. rewrite list_lookup_insert_ne in Hj by lia. eauto.
    + unfold EntryFor. rewrite list_find_holds_insert; [done|by apply Hne|].
      intros old Ho. rewrite Hi in Ho. injection Ho as <-.
      unfold holds in *. congruence.
  - assert (Hnone : Forall (λ slot, ¬ holds key slot) table).
    { apply (proj1 (list_find_None (holds key) table)).
      unfold FindEntry in Hf.
      by destruct (list_find (holds key) table) as [[i slot]|]. }
    destruct (list_find (λ slot, slot = None) table) as [[i slot]|] eqn:Hl.
    + apply list_find_Some in Hl as (Hi & -> & _).
      case_decide as Hkk.
      * subst key'. unfold EntryFor.
        assert (list_find (holds key) (<[i := Some e]> table)
                = Some (i, Some e)) as ->; [|done].
        apply list_find_Some. split_and!.
        -- apply list_lookup_insert_eq. by eapply lookup_lt_Some.
        -- done.
        -- intros j y Hj Hlt. rewrite list_lookup_insert_ne in Hj by lia.
           eapply Forall_lookup_1 in Hnone; [|done]. done.
      * unfold EntryFor.
        rewrite list_find_holds_insert; [done|by apply Hne|by apply Hfree].
    + case_decide as Hkk.
      * subst key'. unfold EntryFor.
        assert (list_find (holds key) (table ++ [Some e])
                = Some (length table, Some e)) as ->; [|done].
        apply list_find_Some. split_and!.
        -- by rewrite lookup_app_r, Nat.sub_diag.
        -- done.
        -- intros j y Hj Hlt. rewrite lookup_app_l in Hj by done.
           eapply Forall_lookup_1 in Hnone; [|done]. done.
      * unfold EntryFor. by rewrite list_find_holds_snoc; [|apply Hne].
Qed.
End TableFacts.

(** ** The origin check *)

Section OriginFacts.
Variable StrictEquals : Object → Object → bool.

Lemma HasOrigin_options_true fuel i (a b : FixedArray) :
  HasOrigin_options StrictEquals fuel i a b = true ↔
  ∀ j, i ≤ j < i + fuel →
    ∃ x y, a !! j = Some x ∧ b !! j = Some y ∧ StrictEquals x y = true.
Proof.
  revert i. induction fuel as [|fuel IH]; intros i; simpl.
  - split; [intros _ j ?; lia|done].
  - destruct (a !! i) as [x|] eqn:Ha; [destruct (b !! i) as [y|] eqn:Hb|].
    + destruct (StrictEquals x y) eqn:Hxy; simpl.
      * rewrite IH. split.
        -- intros H j Hj. destruct (decide (j = i)) as [->|]; [eauto|].
           apply H. lia.
        -- intros H j Hj. apply H. lia.
      * split; [done|]. intros H.
        destruct (H i) as (x' & y' & ? & ? & ?); [lia|]. congruence.
    + split; [done|]. intros H.
      destruct (H i) as (x' & y' & ? & ? & ?); [lia|]. congruence.
    + split; [done|]. intros H.
      destruct (H i) as (x' & y' & ? & ? & ?); [lia|]. congruence.
Qed.

(** On arrays of one length the loop is the pairwise comparison. *)
Lemma HasOrigin_options_pairwise (a b : FixedArray) :
  length a = length b →
  HasOrigin_options StrictEquals (length a) 0 a b = true ↔
  ∀ i x y, a !! i = Some x → b !! i = Some y → StrictEquals x y = true.
Proof.
  intros Hlen. rewrite HasOrigin_options_true. split.
  - intros H i x y Ha Hb.
    destruct (H i) as (x' & y' & ? & ? & ?); [|congruence].
    apply lookup_lt_Some in Ha. lia.
  - intros H j Hj.
    destruct (lookup_lt_is_Some_2 a j) as [x Hx]; [lia|].
    destruct (lookup_lt_is_Some_2 b j) as [y Hy]; [lia|].
    exists x, y. eauto.
Qed.

(** C8.  [HasOrigin] answers a match exactly when: the request has no
    name and the name of the candidate script is undefined; or the
    request has a name and the line offsets are equal, the column
    offsets are equal, the origin flags are equal, both names are strings
    with the same contents, and the host-defined options (the empty array
    for a request without any) have the length of the options of the
    script and are pairwise equal under [StrictEquals].  In every other
    case it answers no match. *)
Theorem HasOrigin_matches_exactly_when function_info script_details :
  let script := SharedFunctionInfo.script function_info in
  HasOrigin StrictEquals function_info script_details = true ↔
  match ScriptDetails.name_obj script_details with
  | None => Script.name script = Undefined
  | Some name =>
    ScriptDetails.line_offset script_details = Script.line_offset script
    ∧ ScriptDetails.column_offset script_details
      = Script.column_offset script
    ∧ Flags (ScriptDetails.origin_options script_details)
      = Flags (Script.origin_options script)
    ∧ (∃ s, name = Str s ∧ Script.name script = Str s)
    ∧ let host_defined_options :=
        default empty_fixed_array
          (ScriptDetails.host_defined_options script_details) in
      length host_defined_options
      = length (Script.host_defined_options script)
      ∧ ∀ i x y,
          host_defined_options !! i = Some x →
          Script.host_defined_options script !! i = Some y →
          StrictEquals x y = true
  end.
Proof.
  intros script. unfold HasOrigin. fold script.
  destruct (ScriptDetails.name_obj script_details) as [name|].
  2: { destruct (Script.name script); simpl; split; congruence. }
  destruct (Z.eqb_spec (ScriptDetails.line_offset script_details)
              (Script.line_offset script)) as [Hl|Hl]; simpl;
    [|split; [done|tauto]].
  destruct (Z.eqb_spec (ScriptDetails.column_offset script_details)
              (Script.column_offset script)) as [Hc|Hc]; simpl;
    [|split; [done|tauto]].
  destruct name as [|s|n|a]; simpl;
    try (split; [done|intros (_ & _ & _ & (s' & ? & _) & _); done]).
  destruct (Script.name script) as [|s'|n|a] eqn:Hname; simpl;
    try (split; [done|intros (_ & _ & _ & (s'' & _ & ?) & _); done]).
  destruct (Z.eqb_spec (Flags (ScriptDetails.origin_options script_details))
              (Flags (Script.origin_options script))) as [Hf|Hf]; simpl;
    [|split; [done|tauto]].
  case_bool_decide as Hs; simpl.
  2: { split; [done|]. intros (_ & _ & _ & (s'' & ? & ?) & _). congruence. }
  subst s'.
  destruct (ScriptDetails.host_defined_options script_details)
    as [options|]; simpl.
  - case_bool_decide as Hlen; simpl.
    + rewrite (HasOrigin_options_pairwise _ _ Hlen).
      split; [intros H; split_and!; eauto|intros (_ & _ & _ & _ & _ & H); done].
    + split; [done|]. intros (_ & _ & _ & _ & ? & _). done.
  - case_bool_decide as Hlen; simpl.
    + split; [|done]. intros _. split_and!; eauto. intros i x y Hx. done.
    + split; [done|]. intros (_ & _ & _ & _ & ? & _). done.
Qed.

(** C10.  For a request without a name [HasOrigin] is decided by the
    name of the candidate script alone: it is [IsUndefined] of that name,
    whatever the offsets, flags and host-defined options of the request
    and of the script.  So every script without a name matches every
    request without a name. *)
Theorem HasOrigin_unnamed_request_ignores_the_rest
    function_info line_offset column_offset origin_options
    host_defined_options :
  let request :=
    ScriptDetails.mk None line_offset column_offset origin_options
      host_defined_options in
  HasOrigin StrictEquals function_info request
  = IsUndefined (Script.name (SharedFunctionInfo.script function_info))
  ∧ ∀ identity line_offset' column_offset' origin_options'
      host_defined_options' language_mode has_bytecode is_old,
      HasOrigin StrictEquals
        (SharedFunctionInfo.mk identity
           (Script.mk Undefined line_offset' column_offset' origin_options'
              host_defined_options')
           language_mode has_bytecode is_old)
        request = true.
Proof. split; [reflexivity|intros; reflexivity]. Qed.
End OriginFacts.

(** ** The regexp region *)

Section RegExpFacts.
Import CompilationCacheRegExp.
Implicit Types (tbls : CompilationCacheRegExp.tables).

Lemma LookupRegExp_New n source flags :
  CompilationCacheTable.LookupRegExp (CompilationCacheTable.New n) source flags
  = UndefinedValue.
Proof. by rewrite LookupRegExp_EntryFor, EntryFor_New. Qed.

Lemma GetTable_result tbls generation source flags :
  CompilationCacheTable.LookupRegExp (GetTable tbls generation).1
    source flags
  = probe tbls generation source flags.
Proof.
  unfold GetTable, probe.
  destruct (tbls !! generation) as [[table|]|]; simpl;
    by rewrite ?LookupRegExp_New.
Qed.

Lemma GetTable_tables tbls generation :
  (GetTable tbls generation).2 = alter allocated generation tbls.
Proof.
  unfold GetTable.
  destruct (tbls !! generation) as [[table|]|] eqn:Hg; simpl.
  - symmetry. apply list_eq. intros j.
    destruct (decide (j = generation)) as [->|].
    + by rewrite list_lookup_alter_eq, Hg.
    + by rewrite list_lookup_alter_ne.
  - apply list_eq. intros j.
    destruct (decide (j = generation)) as [->|].
    + rewrite list_lookup_alter_eq, Hg.
      by rewrite list_lookup_insert_eq by by eapply lookup_lt_Some.
    + by rewrite list_lookup_alter_ne, list_lookup_insert_ne.
  - apply lookup_ge_None in Hg.
    rewrite list_insert_ge by done. apply list_eq. intros j.
    destruct (decide (j = generation)) as [->|].
    + rewrite list_lookup_alter_eq.
      by rewrite (proj2 (lookup_ge_None tbls generation)).
    + by rewrite list_lookup_alter_ne.
Qed.

Lemma probe_alter_allocated tbls g generation source flags :
  probe (alter allocated g tbls) generation source flags
  = probe tbls generation source flags.
Proof.
  unfold probe. destruct (decide (generation = g)) as [->|].
  - rewrite list_lookup_alter_eq.
    by destruct (tbls !! g) as [[table|]|].
  - by rewrite list_lookup_alter_ne.
Qed.

Lemma probed_step lo hi tbls generation :
  lo < hi →
  probed (S lo) hi (alter allocated lo tbls) generation
  = probed lo hi tbls generation.
Proof.
  intros Hlt. unfold probed.
  destruct (decide (generation = lo)) as [->|Hne].
  - rewrite list_lookup_alter_eq.
    rewrite bool_decide_eq_false_2, bool_decide_eq_true_2 by lia. done.
  - rewrite list_lookup_alter_ne by done.
    destruct (decide (lo ≤ generation < hi)).
    + by rewrite !bool_decide_eq_true_2 by lia.
    + by rewrite !bool_decide_eq_false_2 by lia.
Qed.

(** The loop of [Lookup] when no generation it probes holds data for the
    key: it runs to the end and has allocated every slot on its way. *)
Lemma Lookup_loop_miss fuel generation result tbls source flags :
  Value_IsFixedArray result = false →
  (∀ g, generation ≤ g < generation + fuel →
        Value_IsFixedArray (probe tbls g source flags) = false) →
  ∃ result' tables',
    Lookup_loop fuel generation result tbls source flags
    = (result', generation + fuel, tables')
    ∧ Value_IsFixedArray result' = false
    ∧ ∀ g, tables' !! g = probed generation (generation + fuel) tbls g.
Proof.
  revert generation result tbls.
  induction fuel as [|fuel IH]; intros generation result tbls Hr Hmiss.
  - exists result, tbls. simpl. rewrite Nat.add_0_r. split_and!; [done..|].
    intros g. unfold probed. by rewrite bool_decide_eq_false_2 by lia.
  - simpl. destruct (GetTable tbls generation) as [table tables1] eqn:Hg.
    pose proof (GetTable_result tbls generation source flags) as Hres.
    pose proof (GetTable_tables tbls generation) as Htab.
    rewrite Hg in Hres, Htab. simpl in Hres, Htab. rewrite Hres. subst tables1.
    rewrite (Hmiss generation) by lia.
    destruct (IH (S generation)
                (probe tbls generation source flags)
                (alter allocated generation tbls))
      as (result' & tables' & Hloop & Hr' & Htables').
    + apply Hmiss. lia.
    + intros g Hin. rewrite probe_alter_allocated. apply Hmiss. lia.
    + exists result', tables'. rewrite Hloop.
      replace (S generation + fuel) with (generation + S fuel) by lia.
      split_and!; [done..|]. intros g. rewrite Htables'.
      replace (S generation + fuel) with (generation + S fuel) by lia.
      apply probed_step. lia.
Qed.

(** The loop of [Lookup] when [first] is the first generation holding
    data for the key: it stops there, and has allocated the slots before
    it. *)
Lemma Lookup_loop_hit fuel generation result tbls source flags first data :
  generation ≤ first < generation + fuel →
  probe tbls first source flags = DataValue data →
  (∀ g, generation ≤ g < first →
        Value_IsFixedArray (probe tbls g source flags) = false) →
  ∃ tables',
    Lookup_loop fuel generation result tbls source flags
    = (DataValue data, first, tables')
    ∧ ∀ g, tables' !! g = probed generation first tbls g.
Proof.
  revert generation result tbls.
  induction fuel as [|fuel IH];
    intros generation result tbls Hin Hhit Hmiss; [lia|].
  simpl. destruct (GetTable tbls generation) as [table tables1] eqn:Hg.
  pose proof (GetTable_result tbls generation source flags) as Hres.
  pose proof (GetTable_tables tbls generation) as Htab.
  rewrite Hg in Hres, Htab. simpl in Hres, Htab. rewrite Hres. subst tables1.
  destruct (decide (generation = first)) as [->|Hne].
  - rewrite Hhit. simpl. eexists. split; [done|].
    intros g. unfold probed. rewrite bool_decide_eq_false_2 by lia.
    destruct (decide (g = first)) as [->|].
    + rewrite list_lookup_alter_eq. unfold probe in Hhit.
      by destruct (tbls !! first) as [[table'|]|].
    + by rewrite list_lookup_alter_ne.
  - rewrite (Hmiss generation) by lia.
    destruct (IH (S generation)
                (probe tbls generation source flags)
                (alter allocated generation tbls))
      as (tables' & Hloop & Htables').
    + lia.
    + by rewrite probe_alter_allocated.
    + intros g Hg'. rewrite probe_alter_allocated. apply Hmiss. lia.
    + exists tables'. rewrite Hloop. split; [done|].
      intros g. rewrite Htables'. apply probed_step. lia.
Qed.
Lemma Put_insert tbls source flags data :
  Put tbls source flags data
  = <[0 := Some (CompilationCacheTable.PutRegExp (GetTable tbls 0).1
                   source flags data)]> tbls.
Proof.
  unfold Put. pose proof (GetTable_tables tbls 0) as Htab.
  destruct (GetTable tbls 0) as [table tables1]. simpl in *. subst tables1.
  apply list_eq. intros [|g].
  - destruct (tbls !! 0) as [slot|] eqn:H0.
    + rewrite !list_lookup_insert_eq; [done|by eapply lookup_lt_Some|].
      rewrite length_alter. by eapply lookup_lt_Some.
    + apply lookup_ge_None in H0.
      rewrite !list_insert_ge; rewrite ?length_alter; [|done..].
      by rewrite list_lookup_alter_eq,
        (proj2 (lookup_ge_None tbls 0)).
  - by rewrite !list_lookup_insert_ne, list_lookup_alter_ne.
Qed.

Lemma length_Put tbls source flags data :
  length (Put tbls source flags data) = length tbls.
Proof. by rewrite Put_insert, length_insert. Qed.

Lemma probe_Put_same tbls source flags data :
  0 < length tbls →
  probe (Put tbls source flags data) 0 source flags = DataValue data.
Proof.
  intros Hlen. rewrite Put_insert. unfold probe.
  rewrite list_lookup_insert_eq by done.
  unfold CompilationCacheTable.PutRegExp.
  rewrite LookupRegExp_EntryFor, EntryFor_Insert. by rewrite decide_True.
Qed.

Lemma probe_Put_other tbls source' flags' data generation source flags :
  (source', flags') ≠ (source, flags) →
  probe (Put tbls source' flags' data) generation source flags
  = probe tbls generation source flags.
Proof.
  intros Hne. rewrite Put_insert. unfold probe.
  destruct generation as [|g]; [|by rewrite list_lookup_insert_ne].
  destruct (tbls !! 0) as [slot|] eqn:H0.
  - rewrite list_lookup_insert_eq by by eapply lookup_lt_Some.
    unfold CompilationCacheTable.PutRegExp.
    rewrite LookupRegExp_EntryFor, EntryFor_Insert.
    rewrite decide_False by congruence.
    rewrite <- LookupRegExp_EntryFor.
    rewrite GetTable_result. unfold probe. by rewrite H0.
  - apply lookup_ge_None in H0. rewrite list_insert_ge by done.
    by rewrite (proj2 (lookup_ge_None tbls 0)).
Qed.

Lemma Put_other_generation tbls source flags data generation :
  generation ≠ 0 →
  Put tbls source flags data !! generation = tbls !! generation.
Proof. intros. by rewrite Put_insert, list_lookup_insert_ne. Qed.

(** *** Ageing *)

Lemma length_Age_loop i tbls : length (Age_loop i tbls) = length tbls.
Proof.
  revert tbls. induction i as [|i IH]; intros tbls; simpl; [done|].
  by rewrite IH, length_insert.
Qed.

Lemma Age_loop_lookup i tbls generation :
  i < length tbls →
  Age_loop i tbls !! generation
  = if bool_decide (1 ≤ generation ≤ i) then tbls !! (generation - 1)
    else tbls !! generation.
Proof.
  revert tbls. induction i as [|i IH]; intros tbls Hlen; simpl.
  - by rewrite bool_decide_eq_false_2 by lia.
  - rewrite IH by (rewrite length_insert; lia).
    destruct (decide (generation = S i)) as [->|Hne].
    + rewrite bool_decide_eq_false_2, bool_decide_eq_true_2 by lia.
      rewrite list_lookup_insert_eq by done.
      replace (S i - 1) with i by lia.
      destruct (lookup_lt_is_Some_2 tbls i) as [slot ->]; [lia|done].
    + destruct (decide (1 ≤ generation ≤ i)).
      * rewrite !bool_decide_eq_true_2 by lia.
        by rewrite list_lookup_insert_ne by lia.
      * rewrite !bool_decide_eq_false_2 by lia.
        by rewrite list_lookup_insert_ne by lia.
Qed.

Lemma length_Age kGenerations tbls :
  length (Age kGenerations tbls) = length tbls.
Proof. unfold Age. by rewrite length_insert, length_Age_loop. Qed.

Lemma Age_lookup kGenerations tbls generation :
  0 < kGenerations → length tbls = kGenerations →
  Age kGenerations tbls !! generation
  = match generation with
    | O => Some None
    | S g => if bool_decide (generation < kGenerations) then tbls !! g
             else None
    end.
Proof.
  intros Hpos Hlen. unfold Age. destruct generation as [|g].
  - rewrite list_lookup_insert_eq; [done|]. rewrite length_Age_loop. lia.
  - rewrite list_lookup_insert_ne by done.
    rewrite Age_loop_lookup by lia.
    replace (S g - 1) with g by lia.
    case_bool_decide; case_bool_decide; try done; try lia.
    apply lookup_ge_None. lia.
Qed.

Lemma Age_shift kGenerations tbls :
  0 < kGenerations → length tbls = kGenerations →
  Age kGenerations tbls = None :: take (kGenerations - 1) tbls.
Proof.
  intros Hpos Hlen. apply list_eq. intros generation.
  rewrite Age_lookup by done. destruct generation as [|g]; [done|]. simpl.
  case_bool_decide.
  - by rewrite lookup_take_lt by lia.
  - symmetry. apply lookup_ge_None. rewrite length_take. lia.
Qed.
End RegExpFacts.

Section RegExpTheorems.
Import CompilationCacheRegExp.
Implicit Types (tbls : CompilationCacheRegExp.tables).

Lemma probed_nothing lo hi tbls :
  hi ≤ lo → ∀ g, tbls !! g = probed lo hi tbls g.
Proof. intros Hle g. unfold probed. by rewrite bool_decide_eq_false_2 by lia. Qed.

Lemma Lookup_loop_tables fuel generation result tbls source flags :
  ∃ hi, ∀ g,
    (Lookup_loop fuel generation result tbls source flags).2 !! g
    = probed generation hi tbls g.
Proof.
  revert generation result tbls.
  induction fuel as [|fuel IH]; intros generation result tbls; simpl.
  - exists generation. by apply probed_nothing.
  - pose proof (GetTable_tables tbls generation) as Htab.
    destruct (GetTable tbls generation) as [table tables1].
    simpl in Htab. subst tables1.
    assert (Hone : ∀ g, alter allocated generation tbls !! g
                        = probed generation (S generation) tbls g).
    { intros g. unfold probed. destruct (decide (g = generation)) as [->|].
      - by rewrite list_lookup_alter_eq, bool_decide_eq_true_2 by lia.
      - by rewrite list_lookup_alter_ne, bool_decide_eq_false_2 by lia. }
    destruct (Value_IsFixedArray _); simpl; [by exists (S generation)|].
    destruct (IH (S generation)
                (CompilationCacheTable.LookupRegExp table source flags)
                (alter allocated generation tbls)) as [hi Hhi].
    destruct (decide (S generation < hi)) as [Hlt|Hge].
    + exists hi. intros g. rewrite Hhi. apply probed_step. lia.
    + exists (S generation). intros g. rewrite Hhi, <- Hone.
      symmetry. apply probed_nothing. lia.
Qed.

Lemma probe_probed lo hi tbls tables' generation source flags :
  (∀ g, tables' !! g = probed lo hi tbls g) →
  probe tables' generation source flags = probe tbls generation source flags.
Proof.
  intros H. unfold probe. rewrite H. unfold probed.
  case_bool_decide; [|done].
  by destruct (tbls !! generation) as [[table|]|].
Qed.

Lemma length_probed lo hi tbls tables' :
  (∀ g, tables' !! g = probed lo hi tbls g) → length tables' = length tbls.
Proof.
  intros H.
  assert (∀ g, is_Some (tables' !! g) ↔ is_Some (tbls !! g)) as Hs.
  { intros g. rewrite H. unfold probed. case_bool_decide; [|done].
    by rewrite fmap_is_Some. }
  destruct (Nat.lt_trichotomy (length tables') (length tbls))
    as [Hlt|[?|Hlt]]; [|done|].
  - apply lookup_lt_is_Some_2, Hs, lookup_lt_is_Some_1 in Hlt. lia.
  - apply lookup_lt_is_Some_2, Hs, lookup_lt_is_Some_1 in Hlt. lia.
Qed.

Lemma probe_Lookup_other kGenerations tbls counters source' flags'
    generation source flags :
  (source', flags') ≠ (source, flags) →
  probe (Lookup kGenerations tbls counters source' flags').1.2
    generation source flags
  = probe tbls generation source flags.
Proof.
  intros Hne. unfold Lookup.
  destruct (Lookup_loop_tables kGenerations 0 UndefinedValue tbls
              source' flags') as [hi Hhi].
  destruct (Lookup_loop kGenerations 0 UndefinedValue tbls source' flags')
    as [[result stop] tables1]. simpl in Hhi.
  destruct result; simpl; try by eapply probe_probed.
  destruct (negb (stop =? 0)); simpl; [|by eapply probe_probed].
  rewrite probe_Put_other by done. by eapply probe_probed.
Qed.

Lemma length_Lookup kGenerations tbls counters source flags :
  length (Lookup kGenerations tbls counters source flags).1.2 = length tbls.
Proof.
  unfold Lookup.
  destruct (Lookup_loop_tables kGenerations 0 UndefinedValue tbls
              source flags) as [hi Hhi].
  destruct (Lookup_loop kGenerations 0 UndefinedValue tbls source flags)
    as [[result stop] tables1]. simpl in Hhi.
  apply length_probed in Hhi.
  destruct result; simpl; try done.
  destruct (negb (stop =? 0)); simpl; [|done]. by rewrite length_Put.
Qed.

Lemma probe_run_other kGenerations state op generation source flags :
  RegExpOp_key op ≠ (source, flags) →
  probe (RegExpOp_run kGenerations state op).1 generation source flags
  = probe state.1 generation source flags.
Proof.
  intros Hne. destruct op as [source' flags' data|source' flags']; simpl in *.
  - by apply probe_Put_other.
  - pose proof (probe_Lookup_other kGenerations state.1 state.2 source' flags'
                  generation source flags Hne) as H.
    by destruct (Lookup kGenerations state.1 state.2 source' flags')
      as [[result tables'] counters'].
Qed.

Lemma length_run kGenerations state op :
  length (RegExpOp_run kGenerations state op).1 = length state.1.
Proof.
  destruct op as [source' flags' data|source' flags']; simpl.
  - apply length_Put.
  - pose proof (length_Lookup kGenerations state.1 state.2 source' flags') as H.
    by destruct (Lookup kGenerations state.1 state.2 source' flags')
      as [[result tables'] counters'].
Qed.

Lemma probe_foldl_run_other kGenerations ops state generation source flags :
  Forall (λ op, RegExpOp_key op ≠ (source, flags)) ops →
  probe (foldl (RegExpOp_run kGenerations) state ops).1
    generation source flags
  = probe state.1 generation source flags.
Proof.
  intros Hops. revert state.
  induction Hops as [|op ops Hop _ IH]; intros state; simpl; [done|].
  by rewrite IH, probe_run_other.
Qed.

Lemma length_foldl_run kGenerations ops state :
  length (foldl (RegExpOp_run kGenerations) state ops).1 = length state.1.
Proof.
  revert state. induction ops as [|op ops IH]; intros state; simpl; [done|].
  by rewrite IH, length_run.
Qed.

Lemma Lookup_miss kGenerations tbls counters source flags :
  (∀ g, g < kGenerations →
        Value_IsFixedArray (probe tbls g source flags) = false) →
  ∃ tables',
    Lookup kGenerations tbls counters source flags
    = (None, tables', Increment_misses counters)
    ∧ ∀ g, tables' !! g = probed 0 kGenerations tbls g.
Proof.
  intros Hmiss. unfold Lookup.
  destruct (Lookup_loop_miss kGenerations 0 UndefinedValue tbls source flags)
    as (result' & tables' & -> & Hr & Htab); [done|intros; apply Hmiss; lia|].
  exists tables'. split; [|done]. by destruct result'.
Qed.

(** C5.  The lookup of the regexp region probes the generations from 0
    on and stops at the first that holds data for the key.  When [first]
    is that generation, the lookup returns its data and counts a hit; the
    generations after [first] are not touched (not even allocated), the
    absent ones before it are allocated; for [first = 0] the tables are
    unchanged, and for [first > 0] the data is put into generation 0
    while generation [first] keeps its table, and with it the entry.
    When no generation below [kGenerations] holds data for the key, the
    lookup returns nothing and the miss counter goes up by one, the hit
    counter staying. *)
Theorem RegExp_Lookup_probes_generations_in_order
    kGenerations tbls counters source flags :
  (∀ first data,
     first < kGenerations →
     probe tbls first source flags = DataValue data →
     (∀ g, g < first →
           Value_IsFixedArray (probe tbls g source flags) = false) →
     ∃ tables',
       Lookup kGenerations tbls counters source flags
       = (Some data, tables', Increment_hits counters)
       ∧ (first = 0 → tables' = tbls)
       ∧ (0 < first →
          tables' !! 0
          = Some (Some (CompilationCacheTable.PutRegExp (GetTable tbls 0).1
                          source flags data))
          ∧ probe tables' 0 source flags = DataValue data
          ∧ tables' !! first = tbls !! first
          ∧ probe tables' first source flags = DataValue data)
       ∧ (∀ g, 0 < g < first → tables' !! g = allocated <$> tbls !! g)
       ∧ (∀ g, first < g → tables' !! g = tbls !! g))
  ∧ ((∀ g, g < kGenerations →
           Value_IsFixedArray (probe tbls g source flags) = false) →
     ∃ tables',
       Lookup kGenerations tbls counters source flags
       = (None, tables', Increment_misses counters)
       ∧ compilation_cache_misses (Increment_misses counters)
         = (compilation_cache_misses counters + 1)%Z
       ∧ compilation_cache_hits (Increment_misses counters)
         = compilation_cache_hits counters).
Proof.
  split.
  - intros first data Hfirst Hhit Hmiss. unfold Lookup.
    destruct (Lookup_loop_hit kGenerations 0 UndefinedValue tbls source flags
                first data) as (tables1 & -> & Htab);
      [lia|done|intros; apply Hmiss; lia|].
    assert (Hlen : first < length tbls).
    { unfold probe in Hhit. apply lookup_lt_is_Some.
      by destruct (tbls !! first). }
    destruct first as [|first']; simpl.
    + exists tables1. split_and!; [done| |lia| |].
      * intros _. apply list_eq. intros g. rewrite Htab.
        symmetry. by apply probed_nothing.
      * intros g ?. lia.
      * intros g ?. rewrite Htab. symmetry. by apply probed_nothing.
    + eexists. split; [done|].
      assert (H0 : tables1 !! 0 = allocated <$> tbls !! 0).
      { rewrite Htab. unfold probed. by rewrite bool_decide_eq_true_2 by lia. }
      assert (Hget : (GetTable tables1 0).1 = (GetTable tbls 0).1).
      { unfold GetTable. rewrite H0.
        by destruct (tbls !! 0) as [[table|]|]. }
      assert (Hfirst' : tables1 !! S first' = tbls !! S first').
      { rewrite Htab. unfold probed. by rewrite bool_decide_eq_false_2 by lia. }
      assert (Hlen1 : length tables1 = length tbls)
        by by eapply length_probed.
      split_and!.
      * done.
      * intros _. split_and!.
        -- rewrite Put_insert, Hget.
           by rewrite list_lookup_insert_eq by lia.
        -- apply probe_Put_same. lia.
        -- by rewrite Put_other_generation.
        -- unfold probe. rewrite Put_other_generation, Hfirst' by done.
           apply Hhit.
      * intros g Hg. rewrite Put_other_generation, Htab by lia.
        unfold probed. by rewrite bool_decide_eq_true_2 by lia.
      * intros g Hg. rewrite Put_other_generation, Htab by lia.
        unfold probed. by rewrite bool_decide_eq_false_2 by lia.
  - intros Hmiss.
    destruct (Lookup_miss kGenerations tbls counters source flags Hmiss)
      as (tables' & -> & _).
    by exists tables'.
Qed.

Lemma probe_Age kGenerations tbls generation source flags :
  0 < kGenerations → length tbls = kGenerations →
  probe (Age kGenerations tbls) generation source flags
  = match generation with
    | O => UndefinedValue
    | S g => if bool_decide (generation < kGenerations)
             then probe tbls g source flags else UndefinedValue
    end.
Proof.
  intros Hpos Hlen. unfold probe. rewrite Age_lookup by done.
  destruct generation as [|g]; [done|]. by case_bool_decide.
Qed.

(** C6.  [Age] of the regexp region moves the table of generation
    [i - 1] to generation [i], for every [i] from [kGenerations - 1] down
    to 1, and leaves generation 0 absent: the aged array is the absent
    slot followed by all the old slots but the last, whose table is
    dropped whatever it holds.  With two generations, a key that was put
    is, after one [Age], found in generation 1 and not in generation 0,
    and after a second [Age] found in no generation, so that its lookup
    misses; puts and lookups of other keys may come before and between
    the two. *)
Theorem RegExp_Age_rotates_generations kGenerations tbls :
  1 < kGenerations → length tbls = kGenerations →
  (length (Age kGenerations tbls) = kGenerations
   ∧ Age kGenerations tbls !! 0 = Some None
   ∧ (∀ i, 1 ≤ i < kGenerations →
           Age kGenerations tbls !! i = tbls !! (i - 1))
   ∧ Age kGenerations tbls = None :: take (kGenerations - 1) tbls)
  ∧ (kGenerations = 2 →
     ∀ source flags data counters ops1 ops2,
       Forall (λ op, RegExpOp_key op ≠ (source, flags)) ops1 →
       Forall (λ op, RegExpOp_key op ≠ (source, flags)) ops2 →
       let s1 :=
         foldl (RegExpOp_run 2) (Put tbls source flags data, counters) ops1 in
       let aged1 := Age 2 s1.1 in
       let s2 := foldl (RegExpOp_run 2) (aged1, s1.2) ops2 in
       let aged2 := Age 2 s2.1 in
       (probe aged1 0 source flags = UndefinedValue
        ∧ probe aged1 1 source flags = DataValue data)
       ∧ (∀ g, probe aged2 g source flags = UndefinedValue)
       ∧ ∃ tables',
           Lookup 2 aged2 s2.2 source flags
           = (None, tables', Increment_misses s2.2)).
Proof.
  intros Hgt Hlen. split.
  - split_and!.
    + by rewrite length_Age.
    + by rewrite Age_lookup by lia.
    + intros i Hi. rewrite Age_lookup by lia.
      destruct i as [|i]; [lia|]. rewrite bool_decide_eq_true_2 by lia.
      by replace (S i - 1) with i by lia.
    + apply Age_shift; [lia|done].
  - intros -> source flags data counters ops1 ops2 Hops1 Hops2. simpl.
    set (s1 := foldl (RegExpOp_run 2) (Put tbls source flags data, counters)
                 ops1).
    set (s2 := foldl (RegExpOp_run 2) (Age 2 s1.1, s1.2) ops2).
    assert (Hlen1 : length s1.1 = 2).
    { unfold s1. rewrite length_foldl_run. simpl. by rewrite length_Put. }
    assert (Hlen2 : length s2.1 = 2).
    { unfold s2. rewrite length_foldl_run. simpl. by rewrite length_Age. }
    assert (Haged1 : probe (Age 2 s1.1) 0 source flags = UndefinedValue).
    { by rewrite probe_Age by (done || lia). }
    assert (Haged2 : ∀ g, probe (Age 2 s2.1) g source flags = UndefinedValue).
    { intros g. rewrite probe_Age by (done || lia).
      destruct g as [|g]; [done|]. case_bool_decide; [|done].
      assert (g = 0) as -> by lia.
      unfold s2. by rewrite probe_foldl_run_other. }
    split_and!.
    + done.
    + rewrite probe_Age by (done || lia). simpl.
      unfold s1. rewrite probe_foldl_run_other by done. simpl.
      apply probe_Put_same. lia.
    + done.
    + destruct (Lookup_miss 2 (Age 2 s2.1) s2.2 source flags)
        as (tables' & Hl & _); [|by exists tables'].
      intros g _. by rewrite Haged2.
Qed.
End RegExpTheorems.

(** ** Ageing of the eval region *)

Section EvalAge.
Import CompilationCacheTable.
Implicit Types (table : CompilationCacheTable.t).

Lemma alter_same {A} (f : A → A) (l : list A) i :
  (∀ x, l !! i = Some x → f x = x) → alter f i l = l.
Proof.
  intros Hf. apply list_eq. intros j.
  destruct (decide (j = i)) as [->|].
  - rewrite list_lookup_alter_eq. destruct (l !! i) as [x|] eqn:Hx; [|done].
    simpl. by rewrite Hf.
  - by rewrite list_lookup_alter_ne.
Qed.

Lemma insert_alter_const {A} (f : A → A) (l : list A) i y :
  (∀ x, l !! i = Some x → f x = y) → <[i := y]> l = alter f i l.
Proof.
  intros Hf. apply list_eq. intros j.
  destruct (decide (j = i)) as [->|].
  - rewrite list_lookup_alter_eq. destruct (l !! i) as [x|] eqn:Hx.
    + rewrite list_lookup_insert_eq by by eapply lookup_lt_Some.
      simpl. by rewrite (Hf x).
    + apply lookup_ge_None in Hx. by rewrite list_insert_ge, (proj2 (lookup_ge_None l i)).
  - by rewrite list_lookup_alter_ne, list_lookup_insert_ne.
Qed.

Lemma Eval_Age_entry_alter table entry :
  CompilationCacheEval.Age_entry table entry
  = alter Eval_Age_slot entry table.
Proof.
  unfold CompilationCacheEval.Age_entry, ToKey, PrimaryValueAt.
  destruct (table !! entry) as [[e|]|] eqn:Hslot.
  - destruct e as [key value cell]. simpl.
    destruct (Key_IsNumber key) eqn:Hnum.
    + destruct value as [|count|info|data];
        try (symmetry; apply alter_same; intros x Hx; rewrite Hslot in Hx;
             injection Hx as <-; simpl; by rewrite Hnum).
      destruct (count - 1 =? 0)%Z eqn:Hz.
      * apply insert_alter_const. intros x Hx. rewrite Hslot in Hx.
        injection Hx as <-. simpl. by rewrite Hnum, Hz.
      * unfold SetPrimaryValueAt. apply list_eq. intros j.
        destruct (decide (j = entry)) as [->|].
        -- rewrite !list_lookup_alter_eq, Hslot. simpl. by rewrite Hnum, Hz.
        -- by rewrite !list_lookup_alter_ne.
    + destruct value as [|count|info|data];
        try (symmetry; apply alter_same; intros x Hx; rewrite Hslot in Hx;
             injection Hx as <-; simpl; by rewrite Hnum).
      destruct (SharedFunctionInfo.HasBytecodeArray info
                && SharedFunctionInfo.BytecodeArray_IsOld info) eqn:Hold.
      * apply insert_alter_const. intros x Hx. rewrite Hslot in Hx.
        injection Hx as <-. simpl. by rewrite Hnum, Hold.
      * symmetry. apply alter_same. intros x Hx. rewrite Hslot in Hx.
        injection Hx as <-. simpl. by rewrite Hnum, Hold.
  - symmetry. apply alter_same. intros x Hx. rewrite Hslot in Hx.
    by injection Hx as <-.
  - symmetry. apply alter_same. intros x Hx. by rewrite Hslot in Hx.
Qed.

(** A loop that alters the positions [lo], [lo + 1], ... one after the
    other alters each of them once. *)
Lemma foldl_alter_seq {A} (f : A → A) (step : list A → nat → list A)
    (l : list A) lo n i :
  (∀ l i, step l i = alter f i l) →
  foldl step l (seq lo n) !! i
  = if bool_decide (lo ≤ i < lo + n) then f <$> l !! i else l !! i.
Proof.
  intros Hstep. revert l lo.
  induction n as [|n IH]; intros l lo; simpl.
  - by rewrite bool_decide_eq_false_2 by lia.
  - rewrite IH, Hstep. destruct (decide (i = lo)) as [->|Hne].
    + rewrite bool_decide_eq_false_2, bool_decide_eq_true_2 by lia.
      by rewrite list_lookup_alter_eq.
    + rewrite list_lookup_alter_ne by done.
      destruct (decide (lo ≤ i < lo + S n)).
      * by rewrite !bool_decide_eq_true_2 by lia.
      * by rewrite !bool_decide_eq_false_2 by lia.
Qed.

Lemma Eval_Age_slots table :
  CompilationCacheEval.Age (Some table) = Some (Eval_Age_slot <$> table).
Proof.
  unfold CompilationCacheEval.Age, IterateEntries. f_equal.
  apply list_eq. intros i.
  rewrite (foldl_alter_seq Eval_Age_slot) by apply Eval_Age_entry_alter.
  rewrite list_lookup_fmap. case_bool_decide as Hi; [done|].
  rewrite (proj2 (lookup_ge_None table i)) by lia. done.
Qed.

Lemma Eval_Age_iter_sentinel (n : nat) table position hash count cell :
  (Z.of_nat n < count)%Z →
  table !! position = Some (Some (mkEntry (HashKey hash) (SmiValue count) cell)) →
  ∃ table',
    Nat.iter n CompilationCacheEval.Age (Some table) = Some table'
    ∧ table' !! position
      = Some (Some (mkEntry (HashKey hash)
                      (SmiValue (count - Z.of_nat n)) cell)).
Proof.
  induction n as [|n IH]; intros Hlt Hslot.
  - exists table. simpl. split; [done|]. rewrite Hslot. do 4 f_equal. lia.
  - destruct IH as (table1 & Hiter & Hslot1); [lia|done|].
    exists (Eval_Age_slot <$> table1). simpl. rewrite Hiter.
    split; [apply Eval_Age_slots|].
    rewrite list_lookup_fmap, Hslot1. simpl.
    destruct (Z.eqb_spec (count - Z.of_nat n - 1) 0) as [Hz|Hz]; [lia|].
    do 4 f_equal. lia.
Qed.

(** C7.  [Age] of the eval region takes one from the count of the dummy
    entry, the entry whose key is a number, here with a count of at least
    1: the entry is removed when the new count is zero and keeps its
    position with the new count otherwise.  So a dummy entry seeded with
    [count] is, after [n] passes with [n < count], still there with the
    smaller count [count - n], and the pass number [count] removes it. *)
Theorem Eval_Age_counts_the_sentinel_down table position hash count cell :
  table !! position
  = Some (Some (mkEntry (HashKey hash) (SmiValue count) cell)) →
  (1 ≤ count)%Z →
  (∃ table',
     CompilationCacheEval.Age (Some table) = Some table'
     ∧ table' !! position
       = Some (if (count - 1 =? 0)%Z then None
               else Some (mkEntry (HashKey hash) (SmiValue (count - 1)) cell)))
  ∧ (∀ n : nat, (Z.of_nat n < count)%Z →
       ∃ table',
         Nat.iter n CompilationCacheEval.Age (Some table) = Some table'
         ∧ table' !! position
           = Some (Some (mkEntry (HashKey hash)
                           (SmiValue (count - Z.of_nat n)) cell)))
  ∧ ∃ table',
      Nat.iter (Z.to_nat count) CompilationCacheEval.Age (Some table)
      = Some table'
      ∧ table' !! position = Some None.
Proof.
  intros Hslot Hpos. split_and!.
  - exists (Eval_Age_slot <$> table). split; [apply Eval_Age_slots|].
    rewrite list_lookup_fmap, Hslot. simpl. by destruct (count - 1 =? 0)%Z.
  - intros n Hn. by apply Eval_Age_iter_sentinel.
  - destruct (Eval_Age_iter_sentinel (Z.to_nat (count - 1)) table position
                hash count cell) as (table1 & Hiter & Hslot1); [lia|done|].
    exists (Eval_Age_slot <$> table1).
    replace (Z.to_nat count) with (S (Z.to_nat (count - 1))) by lia.
    simpl. rewrite Hiter. split; [apply Eval_Age_slots|].
    rewrite list_lookup_fmap, Hslot1. simpl.
    destruct (Z.eqb_spec (count - Z.of_nat (Z.to_nat (count - 1)) - 1) 0)
      as [Hz|Hz]; [done|lia].
Qed.
End EvalAge.

(** ** The cache as a whole *)

Section CacheTheorems.
Import CompilationCache.
Variable kGenerations : nat.
Variable StrictEquals : Object → Object → bool.

Lemma counted_once_hits c : counted_once c (Increment_hits c).
Proof. by left. Qed.

Lemma counted_once_misses c : counted_once c (Increment_misses c).
Proof. by right. Qed.

Lemma Script_Lookup_counters table_ c source details language_mode :
  counted_once c
    (CompilationCacheScript.Lookup StrictEquals table_ c source details
       language_mode).2.
Proof.
  unfold CompilationCacheScript.Lookup.
  destruct (CompilationCacheTable.LookupScript _ _ _) as [info|]; simpl;
    [destruct (HasOrigin _ _ _)|]; simpl;
    auto using counted_once_hits, counted_once_misses.
Qed.

Lemma Eval_Lookup_counters table_ c source outer_info context language_mode
    position :
  counted_once c
    (CompilationCacheEval.Lookup table_ c source outer_info context
       language_mode position).2.
Proof.
  unfold CompilationCacheEval.Lookup.
  destruct (has_shared _); simpl;
    auto using counted_once_hits, counted_once_misses.
Qed.

Lemma RegExp_Lookup_counters tbls c source flags :
  counted_once c
    (CompilationCacheRegExp.Lookup kGenerations tbls c source flags).2.
Proof.
  unfold CompilationCacheRegExp.Lookup.
  destruct (CompilationCacheRegExp.Lookup_loop _ _ _ _ _ _)
    as [[result stop] tables1].
  destruct result; simpl; auto using counted_once_hits, counted_once_misses.
Qed.

(** C3, amended.  The lookup of each region (script, eval, regexp) adds
    one to exactly one of the hit and the miss counter.  Through the
    cache, [LookupRegExp] always does so, and [LookupScript] and
    [LookupEval] do so while the flag is set; while the flag is cleared
    they leave both counters as they are.  No put changes a counter. *)
Theorem Lookup_counts_once_unless_disabled this :
  (∀ table_ c source details language_mode,
     counted_once c
       (CompilationCacheScript.Lookup StrictEquals table_ c source details
          language_mode).2)
  ∧ (∀ table_ c source outer_info context language_mode position,
       counted_once c
         (CompilationCacheEval.Lookup table_ c source outer_info context
            language_mode position).2)
  ∧ (∀ tbls c source flags,
       counted_once c
         (CompilationCacheRegExp.Lookup kGenerations tbls c source flags).2)
  ∧ (∀ source details language_mode,
       let after :=
         counters (LookupScript StrictEquals this source details
                     language_mode).2 in
       if enabled_script_and_eval_ this
       then counted_once (counters this) after
       else after = counters this)
  ∧ (∀ source outer_info context language_mode position,
       let after :=
         counters (LookupEval this source outer_info context language_mode
                     position).2 in
       if enabled_script_and_eval_ this
       then counted_once (counters this) after
       else after = counters this)
  ∧ (∀ source flags,
       counted_once (counters this)
         (counters (LookupRegExp kGenerations this source flags).2))
  ∧ (∀ source language_mode function_info,
       counters (PutScript this source language_mode function_info)
       = counters this)
  ∧ (∀ source outer_info context function_info feedback_cell position,
       counters (PutEval this source outer_info context function_info
                   feedback_cell position)
       = counters this)
  ∧ (∀ source flags data,
       counters (PutRegExp this source flags data) = counters this).
Proof.
  split_and!.
  - apply Script_Lookup_counters.
  - apply Eval_Lookup_counters.
  - apply RegExp_Lookup_counters.
  - intros source details language_mode. unfold LookupScript,
      IsEnabledScriptAndEval.
    destruct (enabled_script_and_eval_ this); simpl; [|done].
    pose proof (Script_Lookup_counters (script_ this) (counters this) source
                  details language_mode) as H.
    by destruct (CompilationCacheScript.Lookup _ _ _ _ _ _).
  - intros source outer_info context language_mode position.
    unfold LookupEval, IsEnabledScriptAndEval.
    destruct (enabled_script_and_eval_ this); simpl; [|done].
    destruct (IsNativeContext context).
    + pose proof (Eval_Lookup_counters (eval_global_ this) (counters this)
                    source outer_info context language_mode position) as H.
      by destruct (CompilationCacheEval.Lookup _ _ _ _ _ _ _).
    + pose proof (Eval_Lookup_counters (eval_contextual_ this)
                    (counters this) source outer_info
                    (native_context context) language_mode position) as H.
      by destruct (CompilationCacheEval.Lookup _ _ _ _ _ _ _).
  - intros source flags. unfold LookupRegExp.
    pose proof (RegExp_Lookup_counters (reg_exp_ this) (counters this)
                  source flags) as H.
    by destruct (CompilationCacheRegExp.Lookup _ _ _ _ _) as [[? ?] ?].
  - intros. unfold PutScript. by destruct (IsEnabledScriptAndEval this).
  - intros. unfold PutEval.
    by destruct (IsEnabledScriptAndEval this), (IsNativeContext context).
  - done.
Qed.

(** C9.  While the flag is cleared, [LookupScript] and [LookupEval]
    return nothing and leave the whole state as it is, and [PutScript]
    and [PutEval] leave the whole state as it is.  [LookupRegExp] and
    [PutRegExp] do not depend on the flag: run on the state with the
    flag set to either value they return the same result and the same
    state, up to that flag. *)
Theorem disabled_flag_gates_script_and_eval_only this :
  enabled_script_and_eval_ this = false →
  (∀ source details language_mode,
     LookupScript StrictEquals this source details language_mode
     = (None, this))
  ∧ (∀ source outer_info context language_mode position,
       LookupEval this source outer_info context language_mode position
       = (empty_InfoCellPair, this))
  ∧ (∀ source language_mode function_info,
       PutScript this source language_mode function_info = this)
  ∧ (∀ source outer_info context function_info feedback_cell position,
       PutEval this source outer_info context function_info feedback_cell
         position = this)
  ∧ (∀ enabled source flags,
       LookupRegExp kGenerations (with_flag enabled this) source flags
       = ((LookupRegExp kGenerations this source flags).1,
          with_flag enabled (LookupRegExp kGenerations this source flags).2))
  ∧ (∀ enabled source flags data,
       PutRegExp (with_flag enabled this) source flags data
       = with_flag enabled (PutRegExp this source flags data)).
Proof.
  intros Hoff. split_and!.
  - intros. unfold LookupScript, IsEnabledScriptAndEval. by rewrite Hoff.
  - intros. unfold LookupEval, IsEnabledScriptAndEval. by rewrite Hoff.
  - intros. unfold PutScript, IsEnabledScriptAndEval. by rewrite Hoff.
  - intros. unfold PutEval, IsEnabledScriptAndEval. by rewrite Hoff.
  - intros. unfold LookupRegExp, with_flag. simpl.
    by destruct (CompilationCacheRegExp.Lookup _ _ _ _ _) as [[? ?] ?].
  - done.
Qed.
Lemma probe_replicate_None n generation source flags :
  probe (replicate n None) generation source flags = UndefinedValue.
Proof.
  unfold probe.
  destruct (replicate n None !! generation) as [slot|] eqn:H; [|done].
  by apply lookup_replicate in H as [-> _].
Qed.

(** C1, amended.  Disabling clears the flag and all four regions, the
    regexp region included: the script and eval tables and every regexp
    generation are absent afterwards, and [LookupRegExp] returns nothing
    for every pattern and flags, also for one that was put before. *)
Theorem Disable_clears_every_region this source flags :
  let disabled := DisableScriptAndEval kGenerations this in
  enabled_script_and_eval_ disabled = false
  ∧ script_ disabled = None
  ∧ eval_global_ disabled = None
  ∧ eval_contextual_ disabled = None
  ∧ reg_exp_ disabled = replicate kGenerations None
  ∧ (LookupRegExp kGenerations disabled source flags).1 = None.
Proof.
  simpl. split_and!; try done.
  unfold LookupRegExp, DisableScriptAndEval, Clear. simpl.
  destruct (Lookup_miss kGenerations
              (CompilationCacheRegExp.Clear kGenerations (reg_exp_ this))
              (counters this) source flags) as (tables' & -> & _); [|done].
  intros g _. unfold CompilationCacheRegExp.Clear.
  by rewrite probe_replicate_None.
Qed.

Lemma Lookup_loop_not_found fuel generation result tbls source flags :
  Value_IsFixedArray result = false →
  Value_IsFixedArray
    (CompilationCacheRegExp.Lookup_loop fuel generation result tbls source
       flags).1.1 = false →
  ∀ g, (CompilationCacheRegExp.Lookup_loop fuel generation result tbls
          source flags).2 !! g
       = probed generation (generation + fuel) tbls g.
Proof.
  revert generation result tbls.
  induction fuel as [|fuel IH]; intros generation result tbls Hr; simpl.
  - intros _. apply probed_nothing. lia.
  - pose proof (GetTable_tables tbls generation) as Htab.
    destruct (CompilationCacheRegExp.GetTable tbls generation)
      as [table tables1].
    simpl in Htab. subst tables1.
    destruct (Value_IsFixedArray
                (CompilationCacheTable.LookupRegExp table source flags))
      eqn:Hfound; simpl; [congruence|].
    intros Hnot g. rewrite IH by done.
    replace (S generation + fuel) with (generation + S fuel) by lia.
    apply probed_step. lia.
Qed.

(** What each operation leaves in the four regions. *)
Lemma CacheOp_run_script_ this op :
  script_ (CacheOp_run kGenerations StrictEquals this op)
  = match op with
    | OpPutScript source language_mode function_info =>
      if enabled_script_and_eval_ this
      then CompilationCacheScript.Put (script_ this) source language_mode
             function_info
      else script_ this
    | OpRemove function_info =>
      if enabled_script_and_eval_ this
      then CompilationCacheEvalOrScript.Remove (script_ this) function_info
      else script_ this
    | OpClear | OpDisableScriptAndEval => None
    | OpMarkCompactPrologue flag =>
      CompilationCacheScript.Age flag (script_ this)
    | _ => script_ this
    end.
Proof.
  destruct op; unfold CacheOp_run; try done.
  - unfold LookupScript. destruct (IsEnabledScriptAndEval this); [|done].
    by destruct (CompilationCacheScript.Lookup _ _ _ _ _ _).
  - unfold LookupEval. destruct (IsEnabledScriptAndEval this); [|done].
    by destruct (if IsNativeContext context then _ else _).
  - unfold LookupRegExp.
    by destruct (CompilationCacheRegExp.Lookup _ _ _ _ _) as [[? ?] ?].
  - unfold PutScript, IsEnabledScriptAndEval.
    by destruct (enabled_script_and_eval_ this).
  - unfold PutEval, IsEnabledScriptAndEval.
    by destruct (enabled_script_and_eval_ this), (IsNativeContext context).
  - unfold Remove, IsEnabledScriptAndEval.
    by destruct (enabled_script_and_eval_ this).
Qed.

Lemma CacheOp_run_eval_global_ this op :
  eval_global_ (CacheOp_run kGenerations StrictEquals this op)
  = match op with
    | OpPutEval source outer_info context function_info feedback_cell
        position =>
      if enabled_script_and_eval_ this && IsNativeContext context
      then CompilationCacheEval.Put (eval_global_ this) source outer_info
             function_info context feedback_cell position
      else eval_global_ this
    | OpRemove function_info =>
      if enabled_script_and_eval_ this
      then CompilationCacheEvalOrScript.Remove (eval_global_ this)
             function_info
      else eval_global_ this
    | OpClear | OpDisableScriptAndEval => None
    | OpMarkCompactPrologue _ => CompilationCacheEval.Age (eval_global_ this)
    | _ => eval_global_ this
    end.
Proof.
  destruct op; unfold CacheOp_run; try done.
  - unfold LookupScript. destruct (IsEnabledScriptAndEval this); [|done].
    by destruct (CompilationCacheScript.Lookup _ _ _ _ _ _).
  - unfold LookupEval. destruct (IsEnabledScriptAndEval this); [|done].
    by destruct (if IsNativeContext context then _ else _).
  - unfold LookupRegExp.
    by destruct (CompilationCacheRegExp.Lookup _ _ _ _ _) as [[? ?] ?].
  - unfold PutScript, IsEnabledScriptAndEval.
    by destruct (enabled_script_and_eval_ this).
  - unfold PutEval, IsEnabledScriptAndEval.
    by destruct (enabled_script_and_eval_ this), (IsNativeContext context).
  - unfold Remove, IsEnabledScriptAndEval.
    by destruct (enabled_script_and_eval_ this).
Qed.

Lemma CacheOp_run_eval_contextual_ this op :
  eval_contextual_ (CacheOp_run kGenerations StrictEquals this op)
  = match op with
    | OpPutEval source outer_info context function_info feedback_cell
        position =>
      if enabled_script_and_eval_ this && negb (IsNativeContext context)
      then CompilationCacheEval.Put (eval_contextual_ this) source outer_info
             function_info (native_context context) feedback_cell position
      else eval_contextual_ this
    | OpRemove function_info =>
      if enabled_script_and_eval_ this
      then CompilationCacheEvalOrScript.Remove (eval_contextual_ this)
             function_info
      else eval_contextual_ this
    | OpClear | OpDisableScriptAndEval => None
    | OpMarkCompactPrologue _ =>
      CompilationCacheEval.Age (eval_contextual_ this)
    | _ => eval_contextual_ this
    end.
Proof.
  destruct op; unfold CacheOp_run; try done.
  - unfold LookupScript. destruct (IsEnabledScriptAndEval this); [|done].
    by destruct (CompilationCacheScript.Lookup _ _ _ _ _ _).
  - unfold LookupEval. destruct (IsEnabledScriptAndEval this); [|done].
    by destruct (if IsNativeContext context then _ else _).
  - unfold LookupRegExp.
    by destruct (CompilationCacheRegExp.Lookup _ _ _ _ _) as [[? ?] ?].
  - unfold PutScript, IsEnabledScriptAndEval.
    by destruct (enabled_script_and_eval_ this).
  - unfold PutEval, IsEnabledScriptAndEval.
    by destruct (enabled_script_and_eval_ this), (IsNativeContext context).
  - unfold Remove, IsEnabledScriptAndEval.
    by destruct (enabled_script_and_eval_ this).
Qed.

Lemma CacheOp_run_reg_exp_ this op :
  reg_exp_ (CacheOp_run kGenerations StrictEquals this op)
  = match op with
    | OpLookupRegExp source flags =>
      (CompilationCacheRegExp.Lookup kGenerations (reg_exp_ this)
         (counters this) source flags).1.2
    | OpPutRegExp source flags data =>
      CompilationCacheRegExp.Put (reg_exp_ this) source flags data
    | OpClear | OpDisableScriptAndEval =>
      CompilationCacheRegExp.Clear kGenerations (reg_exp_ this)
    | OpMarkCompactPrologue _ =>
      CompilationCacheRegExp.Age kGenerations (reg_exp_ this)
    | _ => reg_exp_ this
    end.
Proof.
  destruct op; unfold CacheOp_run; try done.
  - unfold LookupScript. destruct (IsEnabledScriptAndEval this); [|done].
    by destruct (CompilationCacheScript.Lookup _ _ _ _ _ _).
  - unfold LookupEval. destruct (IsEnabledScriptAndEval this); [|done].
    by destruct (if IsNativeContext context then _ else _).
  - unfold LookupRegExp.
    by destruct (CompilationCacheRegExp.Lookup _ _ _ _ _) as [[? ?] ?].
  - unfold PutScript, IsEnabledScriptAndEval.
    by destruct (enabled_script_and_eval_ this).
  - unfold PutEval, IsEnabledScriptAndEval.
    by destruct (enabled_script_and_eval_ this), (IsNativeContext context).
  - unfold Remove, IsEnabledScriptAndEval.
    by destruct (enabled_script_and_eval_ this).
Qed.

(** The loop of [Age] on an array of any length: a slot it writes gets what
    the next newer slot held. *)
Lemma Age_loop_lookup_any i (tbls : CompilationCacheRegExp.tables) generation :
  CompilationCacheRegExp.Age_loop i tbls !! generation
  = if bool_decide (1 ≤ generation ≤ i ∧ generation < length tbls)
    then tbls !! (generation - 1) else tbls !! generation.
Proof.
  revert tbls. induction i as [|i IH]; intros tbls; simpl.
  - by rewrite bool_decide_eq_false_2 by lia.
  - rewrite IH, length_insert.
    destruct (decide (generation < length tbls)) as [Hlt|Hge].
    2: { rewrite !bool_decide_eq_false_2 by lia.
         destruct (decide (generation = S i)) as [->|].
         - by rewrite list_insert_ge by lia.
         - by rewrite list_lookup_insert_ne. }
    destruct (decide (generation = S i)) as [->|Hne].
    + rewrite bool_decide_eq_false_2, bool_decide_eq_true_2 by lia.
      rewrite list_lookup_insert_eq by done.
      replace (S i - 1) with i by lia.
      destruct (lookup_lt_is_Some_2 tbls i) as [slot ->]; [lia|done].
    + destruct (decide (1 ≤ generation ≤ i)).
      * rewrite !bool_decide_eq_true_2 by lia.
        by rewrite list_lookup_insert_ne by lia.
      * rewrite !bool_decide_eq_false_2 by lia.
        by rewrite list_lookup_insert_ne by lia.
Qed.

(** A slot that [Age] fills holds the table of the next newer generation. *)
Lemma Age_fills_from_newer (tbls : CompilationCacheRegExp.tables) generation
    table :
  tbls !! generation = Some None →
  CompilationCacheRegExp.Age kGenerations tbls !! generation
  = Some (Some table) →
  1 ≤ generation ∧ tbls !! (generation - 1) = Some (Some table).
Proof.
  intros Habsent. unfold CompilationCacheRegExp.Age.
  destruct generation as [|g].
  - rewrite list_lookup_insert_eq; [done|].
    rewrite length_Age_loop. by eapply lookup_lt_Some.
  - rewrite list_lookup_insert_ne by done.
    rewrite Age_loop_lookup_any. case_bool_decide.
    + intros Hmoved. split; [lia|done].
    + by rewrite Habsent.
Qed.

(** C2, amended.  [LookupScript] and [LookupEval] change no table
    reference of any region, and [LookupRegExp] changes none of the
    script and eval regions.  In the regexp region a lookup never makes a
    present slot absent, and leaves each generation above 0 as it was or
    allocates it; a lookup that misses allocates every absent generation
    below [kGenerations].  A put allocates too: [PutScript] stores the
    table it got from [GetTable], a new one when the slot was absent, and
    [PutRegExp] does so for generation 0.  And nothing else allocates:
    of all the operations of the cache (the lookups, the puts, [Remove],
    [Clear], [MarkCompactPrologue], enabling and disabling), the only one
    after which an absent script table is present is [PutScript] with the
    flag set, and the only one after which an absent eval table is present
    is [PutEval] with the flag set, from a native context for the global
    cache and from another context for the contextual one; an absent
    regexp generation is present only after [PutRegExp], for generation
    0, after [LookupRegExp], or after [MarkCompactPrologue], which moves
    the table of the next newer generation into it and allocates none. *)
Theorem tables_allocated_by_Put_and_by_RegExp_Lookup this :
  (∀ source details language_mode,
     let after :=
       (LookupScript StrictEquals this source details language_mode).2 in
     script_ after = script_ this
     ∧ eval_global_ after = eval_global_ this
     ∧ eval_contextual_ after = eval_contextual_ this
     ∧ reg_exp_ after = reg_exp_ this)
  ∧ (∀ source outer_info context language_mode position,
       let after :=
         (LookupEval this source outer_info context language_mode
            position).2 in
       script_ after = script_ this
       ∧ eval_global_ after = eval_global_ this
       ∧ eval_contextual_ after = eval_contextual_ this
       ∧ reg_exp_ after = reg_exp_ this)
  ∧ (∀ source flags,
       let result := (LookupRegExp kGenerations this source flags).1 in
       let after := (LookupRegExp kGenerations this source flags).2 in
       script_ after = script_ this
       ∧ eval_global_ after = eval_global_ this
       ∧ eval_contextual_ after = eval_contextual_ this
       ∧ (∀ g, g ≠ 0 →
            reg_exp_ after !! g = reg_exp_ this !! g
            ∨ reg_exp_ after !! g = allocated <$> reg_exp_ this !! g)
       ∧ (∀ g table, reg_exp_ this !! g = Some (Some table) →
            ∃ table', reg_exp_ after !! g = Some (Some table'))
       ∧ (result = None →
          ∀ g, g < kGenerations →
            reg_exp_ after !! g = allocated <$> reg_exp_ this !! g))
  ∧ (∀ source language_mode function_info,
       script_ (PutScript (with_flag true this) source language_mode
                  function_info)
       = Some (CompilationCacheTable.PutScript
                 (CompilationCacheEvalOrScript.GetTable (script_ this))
                 source language_mode function_info))
  ∧ (∀ source flags data,
       0 < length (reg_exp_ this) →
       reg_exp_ (PutRegExp this source flags data) !! 0
       = Some (Some (CompilationCacheTable.PutRegExp
                       (CompilationCacheRegExp.GetTable (reg_exp_ this) 0).1
                       source flags data)))
  ∧ (∀ op,
       script_ this = None →
       is_Some (script_ (CacheOp_run kGenerations StrictEquals this op)) →
       enabled_script_and_eval_ this = true
       ∧ ∃ source language_mode function_info,
           op = OpPutScript source language_mode function_info)
  ∧ (∀ op,
       eval_global_ this = None →
       is_Some (eval_global_
                  (CacheOp_run kGenerations StrictEquals this op)) →
       enabled_script_and_eval_ this = true
       ∧ ∃ source outer_info context function_info feedback_cell position,
           op = OpPutEval source outer_info context function_info
                  feedback_cell position
           ∧ IsNativeContext context = true)
  ∧ (∀ op,
       eval_contextual_ this = None →
       is_Some (eval_contextual_
                  (CacheOp_run kGenerations StrictEquals this op)) →
       enabled_script_and_eval_ this = true
       ∧ ∃ source outer_info context function_info feedback_cell position,
           op = OpPutEval source outer_info context function_info
                  feedback_cell position
           ∧ IsNativeContext context = false)
  ∧ (∀ op g table,
       reg_exp_ this !! g = Some None →
       reg_exp_ (CacheOp_run kGenerations StrictEquals this op) !! g
       = Some (Some table) →
       (∃ source flags data, op = OpPutRegExp source flags data ∧ g = 0)
       ∨ (∃ source flags, op = OpLookupRegExp source flags)
       ∨ (∃ flag,
            op = OpMarkCompactPrologue flag
            ∧ 1 ≤ g ∧ reg_exp_ this !! (g - 1) = Some (Some table))).
Proof.
  split_and!.
  - intros. unfold after, LookupScript.
    destruct (IsEnabledScriptAndEval this); simpl; [|done].
    by destruct (CompilationCacheScript.Lookup _ _ _ _ _ _).
  - intros. unfold after, LookupEval.
    destruct (IsEnabledScriptAndEval this); simpl; [|done].
    by destruct (if IsNativeContext context then _ else _).
  - intros source flags. unfold LookupRegExp, CompilationCacheRegExp.Lookup.
    destruct (Lookup_loop_tables kGenerations 0 UndefinedValue (reg_exp_ this)
                source flags) as [hi Hhi].
    pose proof (Lookup_loop_not_found kGenerations 0 UndefinedValue
                  (reg_exp_ this) source flags eq_refl) as Hnot.
    destruct (CompilationCacheRegExp.Lookup_loop _ _ _ _ _ _)
      as [[found stop] tables1]. simpl in Hhi, Hnot.
    assert (Hslot : ∀ g, tables1 !! g = reg_exp_ this !! g
                         ∨ tables1 !! g = allocated <$> reg_exp_ this !! g).
    { intros g. rewrite Hhi. unfold probed. case_bool_decide; auto. }
    assert (Hkeep : ∀ g table, reg_exp_ this !! g = Some (Some table) →
                               tables1 !! g = Some (Some table)).
    { intros g table Hg. destruct (Hslot g) as [->| ->]; by rewrite Hg. }
    assert (Hlen : length tables1 = length (reg_exp_ this))
      by by eapply length_probed.
    destruct found as [|n|info|data]; simpl;
      try (split_and!; [done..|intros; apply Hslot|by eauto|];
           intros _ g Hg; rewrite Hnot by done; unfold probed;
           by rewrite bool_decide_eq_true_2 by lia).
    split_and!; [done..| | |done].
    + intros g Hg. destruct (negb (stop =? 0)); [|apply Hslot].
      rewrite Put_other_generation by done. apply Hslot.
    + intros g table Hg. destruct (negb (stop =? 0)); [|by eauto].
      destruct g as [|g].
      * rewrite Put_insert, list_lookup_insert_eq; [by eauto|].
        rewrite Hlen. by eapply lookup_lt_Some.
      * rewrite Put_other_generation by done. eauto.
  - done.
  - intros source flags data Hlen. simpl.
    by rewrite Put_insert, list_lookup_insert_eq.
  - intros op Habsent. rewrite CacheOp_run_script_, Habsent.
    destruct op; try (by intros [? [=]]).
    + destruct (enabled_script_and_eval_ this); [by eauto|by intros [? [=]]].
    + unfold CompilationCacheEvalOrScript.Remove.
      destruct (enabled_script_and_eval_ this); by intros [? [=]].
    + unfold CompilationCacheScript.Age.
      destruct FLAG_isolate_script_cache_ageing; by intros [? [=]].
  - intros op Habsent. rewrite CacheOp_run_eval_global_, Habsent.
    destruct op; try (by intros [? [=]]).
    + destruct (enabled_script_and_eval_ this), (IsNativeContext context)
        eqn:Hnative; simpl; try (by intros [? [=]]).
      intros _. split; [done|]. by eauto 10.
    + unfold CompilationCacheEvalOrScript.Remove.
      destruct (enabled_script_and_eval_ this); by intros [? [=]].
  - intros op Habsent. rewrite CacheOp_run_eval_contextual_, Habsent.
    destruct op; try (by intros [? [=]]).
    + destruct (enabled_script_and_eval_ this), (IsNativeContext context)
        eqn:Hnative; simpl; try (by intros [? [=]]).
      intros _. split; [done|]. by eauto 10.
    + unfold CompilationCacheEvalOrScript.Remove.
      destruct (enabled_script_and_eval_ this); by intros [? [=]].
  - intros op g table Habsent. rewrite CacheOp_run_reg_exp_.
    destruct op; try (by rewrite Habsent).
    + intros _. right. left. by eauto.
    + intros Hpresent. left. exists source, flags, data. split; [done|].
      destruct g as [|g]; [done|].
      rewrite Put_other_generation in Hpresent by done. congruence.
    + unfold CompilationCacheRegExp.Clear. intros Hpresent.
      by apply lookup_replicate in Hpresent as [[=] _].
    + intros Hpresent. right. right.
      exists FLAG_isolate_script_cache_ageing. split; [done|].
      by apply Age_fills_from_newer.
    + unfold CompilationCacheRegExp.Clear. intros Hpresent.
      by apply lookup_replicate in Hpresent as [[=] _].
Qed.


End CacheTheorems.

(** * The theorems at concrete inputs *)

(** C1: a pattern put into the regexp region is found before the cache is
    disabled and is not found after. *)
Lemma Disable_then_LookupRegExp_misses :
  let put :=
    CompilationCache.PutRegExp (empty_cache 2 (mkCounters 0 0))
      "a+" 0%Z [Smi 1] in
  (CompilationCache.LookupRegExp 2 put "a+" 0%Z).1 = Some [Smi 1]
  ∧ (CompilationCache.LookupRegExp 2
       (CompilationCache.DisableScriptAndEval 2 put) "a+" 0%Z).1 = None.
Proof. split; vm_compute; reflexivity. Qed.

(** C2: a lookup in the regexp region of a new cache leaves a table in
    both generation slots, which were absent. *)
Lemma LookupRegExp_allocates_absent_generations :
  let this := empty_cache 2 (mkCounters 0 0) in
  CompilationCache.reg_exp_ this = [None; None]
  ∧ CompilationCache.reg_exp_
      (CompilationCache.LookupRegExp 2 this "a+" 0%Z).2
    = [Some (CompilationCacheTable.New kInitialCacheSize);
       Some (CompilationCacheTable.New kInitialCacheSize)].
Proof. split; vm_compute; reflexivity. Qed.

(** C3: in the disabled state a script lookup and an eval lookup leave both
    counters as they were. *)
Lemma Lookup_disabled_counts_nothing :
  let this :=
    CompilationCache.DisableScriptAndEval 2
      (empty_cache 2 (mkCounters 0 0)) in
  CompilationCache.counters
    (CompilationCache.LookupScript StrictEquals_sample this "var x"
       request_of_unnamed_B kSloppy).2 = mkCounters 0 0
  ∧ CompilationCache.counters
      (CompilationCache.LookupEval this "var x" function_of_A
         (NativeContext 0) kSloppy 0%Z).2 = mkCounters 0 0.
Proof. split; vm_compute; reflexivity. Qed.


(** C2, amended, on a new cache with two generations. *)
Lemma tables_allocated_by_Put_and_by_RegExp_Lookup_witness :
  let this := empty_cache 2 (mkCounters 0 0) in
  let put := OpPutScript "var x" kSloppy function_of_A in
  (0 < length (CompilationCache.reg_exp_ this)
   ∧ (CompilationCache.LookupRegExp 2 this "a+" 0%Z).1 = None
   ∧ CompilationCache.script_ this = None
   ∧ is_Some (CompilationCache.script_
                (CacheOp_run 2 StrictEquals_sample this put)))
  ∧ CompilationCache.reg_exp_
      (CompilationCache.PutRegExp this "a+" 0%Z [Smi 1]) !! 0
    = Some (Some (CompilationCacheTable.PutRegExp
                    (CompilationCacheTable.New kInitialCacheSize) "a+" 0%Z
                    [Smi 1]))
  ∧ (∀ g, g < 2 →
       CompilationCache.reg_exp_
         (CompilationCache.LookupRegExp 2 this "a+" 0%Z).2 !! g
       = allocated <$> CompilationCache.reg_exp_ this !! g)
  ∧ CompilationCache.enabled_script_and_eval_ this = true
  ∧ ∃ source language_mode function_info,
      put = OpPutScript source language_mode function_info.
Proof.
  intros this put.
  destruct (tables_allocated_by_Put_and_by_RegExp_Lookup 2 StrictEquals_sample
              this) as (_ & _ & Hlookup & _ & Hput & Hscript & _).
  assert (Hlen : 0 < length (CompilationCache.reg_exp_ this))
    by (vm_compute; lia).
  assert (Hmiss : (CompilationCache.LookupRegExp 2 this "a+" 0%Z).1 = None)
    by (vm_compute; reflexivity).
  assert (Habsent : CompilationCache.script_ this = None) by reflexivity.
  assert (Hpresent : is_Some (CompilationCache.script_
                                (CacheOp_run 2 StrictEquals_sample this put)))
    by (eexists; reflexivity).
  split; [by split_and!|]. split_and!.
  - exact (Hput "a+" 0%Z [Smi 1] Hlen).
  - destruct (Hlookup "a+" 0%Z) as (_ & _ & _ & _ & _ & Hall).
    exact (Hall Hmiss).
  - exact (proj1 (Hscript put Habsent Hpresent)).
  - exact (proj2 (Hscript put Habsent Hpresent)).
Defined.


(** C5 with two generations, the key in the older one only: the lookup of
    the key promotes it, the lookup of another key misses. *)
Lemma RegExp_Lookup_probes_generations_in_order_witness :
  let older := CompilationCacheTable.PutRegExp [] "a+" 0%Z [Smi 1] in
  let tbls : CompilationCacheRegExp.tables := [None; Some older] in
  (1 < 2 ∧ probe tbls 1 "a+" 0%Z = DataValue [Smi 1]
   ∧ Value_IsFixedArray (probe tbls 0 "a+" 0%Z) = false
   ∧ Value_IsFixedArray (probe tbls 0 "b+" 0%Z) = false
   ∧ Value_IsFixedArray (probe tbls 1 "b+" 0%Z) = false)
  ∧ (∃ tables',
       CompilationCacheRegExp.Lookup 2 tbls (mkCounters 0 0) "a+" 0%Z
       = (Some [Smi 1], tables', mkCounters 1 0)
       ∧ probe tables' 0 "a+" 0%Z = DataValue [Smi 1]
       ∧ tables' !! 1 = Some (Some older))
  ∧ ∃ tables',
      CompilationCacheRegExp.Lookup 2 tbls (mkCounters 0 0) "b+" 0%Z
      = (None, tables', mkCounters 0 1).
Proof.
  intros older tbls.
  split; [split_and!; [lia|reflexivity..]|].
  split.
  - destruct (RegExp_Lookup_probes_generations_in_order 2 tbls (mkCounters 0 0)
                "a+" 0%Z) as [Hhit _].
    destruct (Hhit 1 [Smi 1]) as (tables' & Hlookup & _ & Hpromoted & _);
      [lia|reflexivity| |].
    { intros g Hg. assert (g = 0) as -> by lia. reflexivity. }
    destruct Hpromoted as (_ & Hnewest & Holder & _); [lia|].
    exists tables'. split_and!; [exact Hlookup|exact Hnewest|exact Holder].
  - destruct (RegExp_Lookup_probes_generations_in_order 2 tbls (mkCounters 0 0)
                "b+" 0%Z) as [_ Hmiss].
    destruct Hmiss as (tables' & Hlookup & _).
    { intros g Hg. destruct g as [|[|g]]; [reflexivity..|lia]. }
    exists tables'. exact Hlookup.
Defined.

(** C6 with two generations. *)
Lemma RegExp_Age_rotates_generations_witness :
  (1 < 2 ∧ length [Some [None]; (None : option CompilationCacheTable.t)] = 2)
  ∧ CompilationCacheRegExp.Age 2 [Some [None]; None] = [None; Some [None]]
  ∧ ∃ tables',
      CompilationCacheRegExp.Lookup 2
        (CompilationCacheRegExp.Age 2
           (CompilationCacheRegExp.Age 2
              (CompilationCacheRegExp.Put [Some [None]; None] "a+" 0%Z [Smi 1])))
        (mkCounters 0 0) "a+" 0%Z
      = (None, tables', mkCounters 0 1).
Proof.
  split; [split; [lia|reflexivity]|].
  destruct (RegExp_Age_rotates_generations 2 [Some [None]; None]
              ltac:(lia) eq_refl) as [(_ & _ & _ & Hshift) Htwice].
  split; [exact Hshift|].
  destruct (Htwice eq_refl "a+" 0%Z [Smi 1] (mkCounters 0 0) [] []
              ltac:(constructor) ltac:(constructor)) as (_ & _ & Hmiss).
  exact Hmiss.
Defined.

(** C7 for a dummy entry seeded with 3. *)
Lemma Eval_Age_counts_the_sentinel_down_witness :
  let sentinel count := Some (mkEntry (HashKey 42) (SmiValue count) None) in
  let table : CompilationCacheTable.t := [sentinel 3%Z; None] in
  (table !! 0 = Some (sentinel 3%Z) ∧ (1 ≤ 3)%Z)
  ∧ CompilationCacheEval.Age (Some table) = Some [sentinel 2%Z; None]
  ∧ Nat.iter 2 CompilationCacheEval.Age (Some table)
    = Some [sentinel 1%Z; None]
  ∧ ∃ table',
      Nat.iter 3 CompilationCacheEval.Age (Some table) = Some table'
      ∧ table' !! 0 = Some None.
Proof.
  intros sentinel table.
  split; [split; [reflexivity|lia]|].
  destruct (Eval_Age_counts_the_sentinel_down table 0 42%Z 3%Z None eq_refl
              ltac:(lia)) as (_ & _ & Hlast).
  split_and!; [reflexivity|reflexivity|exact Hlast].
Defined.

(** C9 on a cache that holds a script and has the flag cleared. *)
Lemma disabled_flag_gates_script_and_eval_only_witness :
  let this :=
    with_flag false
      (CompilationCache.PutScript (empty_cache 2 (mkCounters 0 0))
         "var x" kSloppy function_of_A) in
  CompilationCache.enabled_script_and_eval_ this = false
  ∧ CompilationCache.LookupScript StrictEquals_sample this "var x"
      request_of_unnamed_B kSloppy = (None, this)
  ∧ CompilationCache.PutScript this "var y" kSloppy function_of_A = this
  ∧ CompilationCache.LookupRegExp 2 (with_flag true this) "a+" 0%Z
    = ((CompilationCache.LookupRegExp 2 this "a+" 0%Z).1,
       with_flag true (CompilationCache.LookupRegExp 2 this "a+" 0%Z).2).
Proof.
  intros this.
  destruct (disabled_flag_gates_script_and_eval_only 2 StrictEquals_sample this
              eq_refl) as (Hscript & _ & Hput & _ & Hregexp & _).
  split_and!; [reflexivity|apply Hscript|apply Hput|apply Hregexp].
Defined.

(** * Further properties of the regexp region *)

Section RegExpLookup.
Import CompilationCacheRegExp.
Implicit Types (tbls : CompilationCacheRegExp.tables).

Lemma first_data_ext n generation tbls tables' source flags :
  (∀ g, probe tables' g source flags = probe tbls g source flags) →
  first_data n generation tables' source flags
  = first_data n generation tbls source flags.
Proof.
  intros Hext. revert generation.
  induction n as [|n IH]; intros generation; simpl; [done|].
  pose proof (Hext generation) as Hg.
  destruct (probe tables' generation source flags); rewrite <- Hg; auto.
Qed.

Lemma first_data_None n generation tbls source flags :
  first_data n generation tbls source flags = None →
  ∀ g, generation ≤ g < generation + n →
       Value_IsFixedArray (probe tbls g source flags) = false.
Proof.
  revert generation. induction n as [|n IH]; intros generation; simpl.
  - intros _ g ?. lia.
  - destruct (probe tbls generation source flags) eqn:Hp; try done;
      intros Hnone g Hg;
      (destruct (decide (g = generation)) as [->|];
       [by rewrite Hp|apply (IH _ Hnone); lia]).
Qed.

Lemma first_data_Some n generation tbls source flags data :
  first_data n generation tbls source flags = Some data →
  ∃ first,
    generation ≤ first < generation + n
    ∧ probe tbls first source flags = DataValue data
    ∧ ∀ g, generation ≤ g < first →
           Value_IsFixedArray (probe tbls g source flags) = false.
Proof.
  revert generation. induction n as [|n IH]; intros generation; simpl; [done|].
  destruct (probe tbls generation source flags) eqn:Hp;
    try (intros (first & ? & ? & Hmin)%IH; exists first;
         split; [lia|split; [done|]];
         intros g Hg; destruct (decide (g = generation)) as [->|];
         [by rewrite Hp|apply Hmin; lia]).
  intros [= ->]. exists generation. split; [lia|split; [done|intros; lia]].
Qed.

Lemma first_data_newest n tbls source flags data :
  0 < n → probe tbls 0 source flags = DataValue data →
  first_data n 0 tbls source flags = Some data.
Proof. intros Hn Hp. destruct n; [lia|]. simpl. by rewrite Hp. Qed.

(** A hit: where it leaves the data and what it leaves alone. *)
Lemma Lookup_hit kGenerations tbls counters source flags first data :
  first < kGenerations →
  probe tbls first source flags = DataValue data →
  (∀ g, g < first → Value_IsFixedArray (probe tbls g source flags) = false) →
  ∃ tables',
    Lookup kGenerations tbls counters source flags
    = (Some data, tables', Increment_hits counters)
    ∧ (first = 0 → tables' = tbls)
    ∧ probe tables' 0 source flags = DataValue data
    ∧ ∀ g, g ≠ 0 → probe tables' g source flags = probe tbls g source flags.
Proof.
  intros Hfirst Hhit Hmiss. unfold Lookup.
  destruct (Lookup_loop_hit kGenerations 0 UndefinedValue tbls source flags
              first data) as (tables1 & -> & Htab);
    [lia|done|intros; apply Hmiss; lia|].
  assert (Hlen : first < length tbls).
  { unfold probe in Hhit. apply lookup_lt_is_Some.
    by destruct (tbls !! first). }
  assert (Hlen1 : length tables1 = length tbls) by by eapply length_probed.
  destruct first as [|first']; simpl.
  - assert (tables1 = tbls) as ->.
    { apply list_eq. intros g. rewrite Htab. symmetry.
      by apply probed_nothing. }
    by exists tbls.
  - eexists. split_and!; [done|lia| |].
    + apply probe_Put_same. lia.
    + intros g Hg. unfold probe. rewrite Put_other_generation by done.
      by apply (probe_probed 0 (S first')).
Qed.

(** The lookup of the regexp region returns [first_data], and counts a hit
    or a miss with it. *)
Lemma Lookup_first_data kGenerations tbls counters source flags :
  ∃ tables',
    Lookup kGenerations tbls counters source flags
    = (first_data kGenerations 0 tbls source flags, tables',
       match first_data kGenerations 0 tbls source flags with
       | Some _ => Increment_hits counters
       | None => Increment_misses counters
       end)
    ∧ (∀ data, probe tbls 0 source flags = DataValue data → tables' = tbls)
    ∧ (∀ data,
         first_data kGenerations 0 tbls source flags = Some data →
         probe tables' 0 source flags = DataValue data)
    ∧ (∀ g, g ≠ 0 → probe tables' g source flags = probe tbls g source flags)
    ∧ (first_data kGenerations 0 tbls source flags = None →
       ∀ g, tables' !! g = probed 0 kGenerations tbls g).
Proof.
  destruct (first_data kGenerations 0 tbls source flags) as [data|] eqn:Hfd.
  - apply first_data_Some in Hfd as (first & Hfirst & Hhit & Hmin).
    destruct (Lookup_hit kGenerations tbls counters source flags first data)
      as (tables' & -> & Hsame & Hnewest & Hrest);
      [lia|done|intros; apply Hmin; lia|].
    exists tables'. split_and!; [done| |by intros ? [= <-]|done|done].
    intros data' H0. apply Hsame.
    destruct first as [|first']; [done|].
    specialize (Hmin 0). rewrite H0 in Hmin. simpl in Hmin.
    discriminate Hmin. lia.
  - pose proof (first_data_None _ _ _ _ _ Hfd) as Hmiss.
    destruct (Lookup_miss kGenerations tbls counters source flags)
      as (tables' & -> & Htab); [intros; apply Hmiss; lia|].
    exists tables'. split_and!; [done| |done| |done].
    + intros data H0. destruct kGenerations as [|n]; [|simpl in Hfd; by rewrite H0 in Hfd].
      apply list_eq. intros g. rewrite Htab. symmetry.
      by apply probed_nothing.
    + intros g _. by eapply probe_probed.
Qed.

(** X1.  What was put is found: after a put of [data] under a key, and
    after any puts and lookups of other keys, the lookup of the key returns
    [data], counts a hit and leaves the tables as they are. *)
Theorem RegExp_Put_then_Lookup_returns_the_data
    kGenerations tbls counters source flags data ops :
  0 < kGenerations → 0 < length tbls →
  Forall (λ op, RegExpOp_key op ≠ (source, flags)) ops →
  let state :=
    foldl (RegExpOp_run kGenerations) (Put tbls source flags data, counters)
      ops in
  Lookup kGenerations state.1 state.2 source flags
  = (Some data, state.1, Increment_hits state.2).
Proof.
  intros HkG Hlen Hops state.
  assert (Hnewest : probe state.1 0 source flags = DataValue data).
  { unfold state. rewrite probe_foldl_run_other by done. simpl.
    by apply probe_Put_same. }
  destruct (Lookup_first_data kGenerations state.1 state.2 source flags)
    as (tables' & Hlookup & Hsame & _).
  rewrite (first_data_newest _ _ _ _ data) in Hlookup by done.
  by rewrite Hlookup, (Hsame data Hnewest).
Qed.

(** X2.  Keys do not disturb each other: what the lookup of a key returns
    is not changed by puts and lookups of other keys, whatever they
    allocate or promote. *)
Theorem RegExp_Lookup_ignores_other_keys
    kGenerations state ops counters counters' source flags :
  Forall (λ op, RegExpOp_key op ≠ (source, flags)) ops →
  (Lookup kGenerations (foldl (RegExpOp_run kGenerations) state ops).1
     counters' source flags).1.1
  = (Lookup kGenerations state.1 counters source flags).1.1.
Proof.
  intros Hops.
  destruct (Lookup_first_data kGenerations
              (foldl (RegExpOp_run kGenerations) state ops).1 counters'
              source flags) as (tables1 & -> & _).
  destruct (Lookup_first_data kGenerations state.1 counters source flags)
    as (tables2 & -> & _).
  simpl. apply first_data_ext. intros g. by apply probe_foldl_run_other.
Qed.

Lemma allocated_allocated (slot : option CompilationCacheTable.t) :
  allocated <$> (allocated <$> Some slot) = allocated <$> Some slot.
Proof. by destruct slot. Qed.

(** X3.  A lookup settles the region: the same lookup once more returns the
    same result, counts the same way, and changes no table reference. *)
Theorem RegExp_Lookup_again_changes_nothing
    kGenerations tbls counters source flags :
  ∃ result tables' counters',
    Lookup kGenerations tbls counters source flags
    = (result, tables', counters')
    ∧ Lookup kGenerations tables' counters' source flags
      = (result, tables',
         match result with
         | Some _ => Increment_hits counters'
         | None => Increment_misses counters'
         end).
Proof.
  destruct (Lookup_first_data kGenerations tbls counters source flags)
    as (tables' & Hlookup & _ & Hnewest & Hrest & Hmiss).
  destruct (Lookup_first_data kGenerations tables'
              (match first_data kGenerations 0 tbls source flags with
               | Some _ => Increment_hits counters
               | None => Increment_misses counters
               end) source flags)
    as (tables'' & Hagain & Hsame & _ & _ & Hmiss').
  eexists _, tables', _. split; [exact Hlookup|]. rewrite Hagain.
  destruct (first_data kGenerations 0 tbls source flags) as [data|] eqn:Hfd.
  - specialize (Hnewest data eq_refl).
    assert (0 < kGenerations) by (destruct kGenerations; [done|lia]).
    rewrite (first_data_newest _ _ _ _ data) by done.
    by rewrite (Hsame data Hnewest).
  - assert (Hfd' : first_data kGenerations 0 tables' source flags = None).
    { rewrite <- Hfd. apply first_data_ext. intros g.
      by apply (probe_probed 0 kGenerations), Hmiss. }
    rewrite Hfd'. do 2 f_equal.
    apply list_eq. intros g. rewrite (Hmiss' Hfd'). unfold probed.
    case_bool_decide; [|done].
    rewrite (Hmiss eq_refl). unfold probed. rewrite bool_decide_eq_true_2 by done.
    destruct (tbls !! g) as [slot|]; [|done]. apply allocated_allocated.
Qed.

(** *** Ageing, for any number of generations *)

Lemma length_iter_Age kGenerations j tbls :
  length (Nat.iter j (Age kGenerations) tbls) = length tbls.
Proof. induction j as [|j IH]; simpl; [done|]. by rewrite length_Age. Qed.

Lemma iter_Age_lookup kGenerations j tbls generation :
  0 < kGenerations → length tbls = kGenerations →
  Nat.iter j (Age kGenerations) tbls !! generation
  = if bool_decide (generation < kGenerations)
    then if bool_decide (j ≤ generation) then tbls !! (generation - j)
         else Some None
    else None.
Proof.
  intros HkG Hlen. revert generation.
  induction j as [|j IH]; intros generation; simpl.
  - rewrite Nat.sub_0_r. case_bool_decide; [done|].
    apply lookup_ge_None. lia.
  - rewrite Age_lookup by (by rewrite ?length_iter_Age).
    destruct generation as [|g]; [by rewrite bool_decide_eq_true_2 by lia|].
    case_bool_decide; [|done]. rewrite IH.
    rewrite bool_decide_eq_true_2 by lia.
    case_bool_decide.
    + by rewrite bool_decide_eq_true_2 by lia.
    + by rewrite bool_decide_eq_false_2 by lia.
Qed.

Lemma probe_iter_Age kGenerations j tbls generation source flags :
  0 < kGenerations → length tbls = kGenerations →
  probe (Nat.iter j (Age kGenerations) tbls) generation source flags
  = if bool_decide (j ≤ generation < kGenerations)
    then probe tbls (generation - j) source flags else UndefinedValue.
Proof.
  intros HkG Hlen. unfold probe. rewrite iter_Age_lookup by done.
  case_bool_decide.
  - case_bool_decide.
    + by rewrite bool_decide_eq_true_2 by lia.
    + by rewrite bool_decide_eq_false_2 by lia.
  - by rewrite bool_decide_eq_false_2 by lia.
Qed.

Lemma iter_Age_all_absent kGenerations j tbls :
  0 < kGenerations → length tbls = kGenerations → kGenerations ≤ j →
  Nat.iter j (Age kGenerations) tbls = replicate kGenerations None.
Proof.
  intros HkG Hlen Hj. apply list_eq. intros g.
  rewrite iter_Age_lookup by done. case_bool_decide.
  - rewrite bool_decide_eq_false_2 by lia.
    by rewrite lookup_replicate_2 by lia.
  - symmetry. apply lookup_ge_None. rewrite length_replicate. lia.
Qed.

(** X4.  An entry lives for [kGenerations - 1] collections after its last
    use.  When generation 0 holds [data] for a key, as after a put or a
    hit, then after [j] passes of [Age], for every [j] below
    [kGenerations], the lookup of the key still returns [data] and has it
    in generation 0 again.  After [kGenerations] passes or more without a
    put or a lookup in between, the array is all absent and every lookup
    misses. *)
Theorem RegExp_entry_outlives_fewer_than_kGenerations_ages
    kGenerations tbls counters source flags data :
  1 < kGenerations → length tbls = kGenerations →
  probe tbls 0 source flags = DataValue data →
  (∀ j, j < kGenerations →
     ∃ tables',
       Lookup kGenerations (Nat.iter j (Age kGenerations) tbls) counters
         source flags
       = (Some data, tables', Increment_hits counters)
       ∧ probe tables' 0 source flags = DataValue data)
  ∧ (∀ j, kGenerations ≤ j →
       Nat.iter j (Age kGenerations) tbls = replicate kGenerations None
       ∧ ∀ source' flags',
           ∃ tables',
             Lookup kGenerations (Nat.iter j (Age kGenerations) tbls)
               counters source' flags'
             = (None, tables', Increment_misses counters)).
Proof.
  intros HkG Hlen Hnewest. split.
  - intros j Hj.
    destruct (Lookup_hit kGenerations (Nat.iter j (Age kGenerations) tbls)
                counters source flags j data)
      as (tables' & Hlookup & _ & Hpromoted & _); [done| |..].
    + rewrite probe_iter_Age by (done || lia).
      by rewrite bool_decide_eq_true_2, Nat.sub_diag by lia.
    + intros g Hg. rewrite probe_iter_Age by (done || lia).
      by rewrite bool_decide_eq_false_2 by lia.
    + by exists tables'.
  - intros j Hj.
    assert (Hall : ∀ g s f,
              probe (Nat.iter j (Age kGenerations) tbls) g s f
              = UndefinedValue).
    { intros g s f. rewrite probe_iter_Age by (done || lia).
      by rewrite bool_decide_eq_false_2 by lia. }
    split; [apply iter_Age_all_absent; (done || lia)|].
    intros source' flags'.
    destruct (Lookup_miss kGenerations (Nat.iter j (Age kGenerations) tbls)
                counters source' flags') as (tables' & Hl & _);
      [|by exists tables'].
    intros g _. by rewrite Hall.
Qed.
End RegExpLookup.

(** * Further properties of the script and eval regions *)

Section SweepFacts.
Import CompilationCacheTable.
Implicit Types (table : CompilationCacheTable.t) (key : Key).

(** A sweep that removes a slot or keeps its key keeps what a lookup finds,
    when it keeps the entry found. *)
Lemma EntryFor_fmap_kept (f : option Entry → option Entry) table key e :
  (∀ slot, f slot = None ∨ entry_key <$> f slot = entry_key <$> slot) →
  EntryFor table key = Some e → f (Some e) = Some e →
  EntryFor (f <$> table) key = Some e.
Proof.
  intros Hf Hfound Hkept. unfold EntryFor in *.
  destruct (list_find (holds key) table) as [[i slot]|] eqn:Hfind; [|done].
  simpl in Hfound. subst slot.
  apply list_find_Some in Hfind as (Hi & Hk & Hleast).
  assert (list_find (holds key) (f <$> table) = Some (i, Some e)) as ->;
    [|done].
  apply list_find_Some. split_and!.
  - by rewrite list_lookup_fmap, Hi; simpl; rewrite Hkept.
  - done.
  - intros j y Hj Hlt. rewrite list_lookup_fmap in Hj.
    destruct (table !! j) as [slot|] eqn:Hslot; [|done].
    simpl in Hj. injection Hj as <-.
    specialize (Hleast j slot Hslot Hlt). unfold holds in *.
    destruct (Hf slot) as [-> | ->]; [done|done].
Qed.

(** Such a sweep finds nothing new: what a lookup finds afterwards was in
    the table, under the key, and came through the sweep. *)
Lemma EntryFor_fmap_found (f : option Entry → option Entry) table key e :
  (∀ slot, f slot = None ∨ entry_key <$> f slot = entry_key <$> slot) →
  EntryFor (f <$> table) key = Some e →
  ∃ slot, slot ∈ table ∧ f slot = Some e ∧ holds key slot.
Proof.
  intros Hf Hfound. unfold EntryFor in *.
  destruct (list_find (holds key) (f <$> table)) as [[i y]|] eqn:Hfind;
    [|done].
  simpl in Hfound. subst y.
  apply list_find_Some in Hfind as (Hi & Hk & _).
  rewrite list_lookup_fmap in Hi.
  destruct (table !! i) as [slot|] eqn:Hslot; [|done].
  simpl in Hi. injection Hi as Hi.
  exists slot. split_and!; [by eapply list_elem_of_lookup_2|done|].
  unfold holds in *. destruct (Hf slot) as [Hn|Hkey]; [congruence|].
  by rewrite <- Hkey, Hi.
Qed.

Lemma Script_Age_slot_keeps_key slot :
  Script_Age_slot slot = None
  ∨ entry_key <$> Script_Age_slot slot = entry_key <$> slot.
Proof.
  destruct slot as [[key [| |info|] cell]|]; simpl; auto.
  destruct (bytecode_is_old info); auto.
Qed.

Lemma Eval_Age_slot_keeps_key slot :
  Eval_Age_slot slot = None
  ∨ entry_key <$> Eval_Age_slot slot = entry_key <$> slot.
Proof.
  destruct slot as [[key value cell]|]; simpl; auto.
  destruct (Key_IsNumber key), value as [| |info|]; simpl; auto.
  - destruct (_ =? _)%Z; auto.
  - destruct (_ && _); auto.
Qed.

Lemma Remove_slot_keeps_key value slot :
  Remove_slot value slot = None
  ∨ entry_key <$> Remove_slot value slot = entry_key <$> slot.
Proof.
  destruct slot as [[key [| |info|] cell]|]; simpl; auto.
  case_bool_decide; auto.
Qed.

Lemma Script_Age_entry_alter table entry :
  CompilationCacheScript.Age_entry table entry
  = alter Script_Age_slot entry table.
Proof.
  unfold CompilationCacheScript.Age_entry, ToKey, PrimaryValueAt.
  destruct (table !! entry) as [[e|]|] eqn:Hslot.
  - destruct e as [key value cell]. simpl.
    destruct value as [|count|info|data];
      try (symmetry; apply alter_same; intros x Hx; rewrite Hslot in Hx;
           by injection Hx as <-).
    unfold Script_Age_slot, bytecode_is_old.
    destruct (SharedFunctionInfo.HasBytecodeArray info
              && SharedFunctionInfo.BytecodeArray_IsOld info) eqn:Hold.
    + apply insert_alter_const. intros x Hx. rewrite Hslot in Hx.
      injection Hx as <-. simpl. by rewrite Hold.
    + symmetry. apply alter_same. intros x Hx. rewrite Hslot in Hx.
      injection Hx as <-. simpl. by rewrite Hold.
  - symmetry. apply alter_same. intros x Hx. rewrite Hslot in Hx.
    by injection Hx as <-.
  - symmetry. apply alter_same. intros x Hx. by rewrite Hslot in Hx.
Qed.

Lemma Script_Age_slots table :
  CompilationCacheScript.Age true (Some table)
  = Some (Script_Age_slot <$> table).
Proof.
  unfold CompilationCacheScript.Age, IterateEntries. simpl. f_equal.
  apply list_eq. intros i.
  rewrite (foldl_alter_seq Script_Age_slot) by apply Script_Age_entry_alter.
  rewrite list_lookup_fmap. case_bool_decide as Hi; [done|].
  rewrite (proj2 (lookup_ge_None table i)) by lia. done.
Qed.

Lemma LookupEval_EntryFor table source outer_info context language_mode
    position :
  LookupEval table source outer_info context language_mode position
  = match EntryFor table
            (EvalKey source (SharedFunctionInfo.identity outer_info)
               (context_identity context) language_mode position) with
    | Some (mkEntry _ (InfoValue info) cell) => mkInfoCellPair (Some info) cell
    | _ => empty_InfoCellPair
    end.
Proof.
  unfold LookupEval, FeedbackCellAt.
  destruct (FindEntry table _) as [i|] eqn:Hf.
  - apply FindEntry_Some in Hf as (e & Hi & _ & ->).
    rewrite (PrimaryValueAt_lookup _ _ _ Hi), Hi. by destruct e.
  - by rewrite (FindEntry_None _ _ Hf).
Qed.

Lemma Script_Lookup_result StrictEquals
    (table_ : option CompilationCacheTable.t) counters source details
    language_mode :
  (CompilationCacheScript.Lookup StrictEquals table_ counters source details
     language_mode).1
  = match CompilationCacheTable.LookupScript
            (CompilationCacheEvalOrScript.GetTable table_) source
            language_mode with
    | Some info =>
      if HasOrigin StrictEquals info details then Some info else None
    | None => None
    end.
Proof.
  unfold CompilationCacheScript.Lookup.
  destruct (CompilationCacheTable.LookupScript _ _ _) as [info|]; [|done].
  by destruct (HasOrigin StrictEquals info details).
Qed.

Lemma Eval_Lookup_result (table_ : option CompilationCacheTable.t) counters
    source outer_info context language_mode position :
  (CompilationCacheEval.Lookup table_ counters source outer_info context
     language_mode position).1
  = CompilationCacheTable.LookupEval
      (CompilationCacheEvalOrScript.GetTable table_) source outer_info
      context language_mode position.
Proof.
  unfold CompilationCacheEval.Lookup.
  by destruct (has_shared _).
Qed.

(** X5.  The ageing of the script region removes old functions and nothing
    else.  With the flag off it changes nothing.  It never allocates a
    table nor drops one.  A function that a lookup returned before and
    whose bytecode is not old is returned after; and with the flag on, no
    lookup returns a function whose bytecode is old. *)
Theorem Script_Age_removes_old_functions_only
    StrictEquals FLAG_isolate_script_cache_ageing
    (table_ : option CompilationCacheTable.t) counters source details
    language_mode :
  let aged :=
    CompilationCacheScript.Age FLAG_isolate_script_cache_ageing table_ in
  let lookup (table_ : option CompilationCacheTable.t) :=
    (CompilationCacheScript.Lookup StrictEquals table_ counters source details
       language_mode).1 in
  (FLAG_isolate_script_cache_ageing = false → aged = table_)
  ∧ (is_Some aged ↔ is_Some table_)
  ∧ (∀ info, lookup table_ = Some info → bytecode_is_old info = false →
             lookup aged = Some info)
  ∧ (FLAG_isolate_script_cache_ageing = true →
     ∀ info, lookup aged = Some info → bytecode_is_old info = false).
Proof.
  intros aged lookup. unfold aged, lookup. clear aged lookup.
  destruct FLAG_isolate_script_cache_ageing.
  2: { by split_and!. }
  destruct table_ as [table|]; [|by split_and!].
  rewrite Script_Age_slots. split_and!; [done|done| |].
  - intros info. rewrite !Script_Lookup_result. simpl.
    rewrite !LookupScript_EntryFor.
    destruct (EntryFor table (ScriptKey source language_mode))
      as [[key [| |info'|] cell]|] eqn:Hfound; try done.
    intros Hres Hyoung.
    assert (info' = info) as ->.
    { by destruct (HasOrigin StrictEquals info' details); simplify_eq. }
    rewrite (EntryFor_fmap_kept Script_Age_slot _ _ _
               Script_Age_slot_keeps_key Hfound); [done|].
    simpl. by rewrite Hyoung.
  - intros _ info. rewrite Script_Lookup_result. simpl.
    rewrite LookupScript_EntryFor.
    destruct (EntryFor (Script_Age_slot <$> table)
                (ScriptKey source language_mode))
      as [[key [| |info'|] cell]|] eqn:Hfound; try done.
    intros Hres.
    assert (info' = info) as ->.
    { by destruct (HasOrigin StrictEquals info' details); simplify_eq. }
    apply (EntryFor_fmap_found _ _ _ _ Script_Age_slot_keeps_key) in Hfound
      as ([[key' [| |info'|] cell']|] & _ & Hslot & _); simpl in Hslot;
      try done.
    destruct (bytecode_is_old info') eqn:Hold; [done|].
    by simplify_eq.
Qed.

(** X6.  The ageing of an eval region removes old functions and leaves the
    other functions to be found: it never allocates a table nor drops one;
    what a lookup returned before, for a function whose bytecode is not
    old, it returns after, with the same feedback cell; and no lookup
    returns a function whose bytecode is old. *)
Theorem Eval_Age_removes_old_functions_only
    (table_ : option CompilationCacheTable.t) counters source outer_info
    context language_mode position :
  let aged := CompilationCacheEval.Age table_ in
  let lookup (table_ : option CompilationCacheTable.t) :=
    (CompilationCacheEval.Lookup table_ counters source outer_info context
       language_mode position).1 in
  (is_Some aged ↔ is_Some table_)
  ∧ (∀ info, shared (lookup table_) = Some info →
             bytecode_is_old info = false → lookup aged = lookup table_)
  ∧ (∀ info, shared (lookup aged) = Some info → bytecode_is_old info = false).
Proof.
  intros aged lookup. unfold aged, lookup. clear aged lookup.
  destruct table_ as [table|]; [|by split_and!].
  rewrite Eval_Age_slots. split_and!; [done| |].
  - intros info. rewrite !Eval_Lookup_result. simpl.
    rewrite !LookupEval_EntryFor.
    destruct (EntryFor table _) as [[key [| |info'|] cell]|] eqn:Hfound;
      try done.
    simpl. intros [= ->] Hyoung.
    assert (Hkey : key = EvalKey source (SharedFunctionInfo.identity outer_info)
                           (context_identity context) language_mode position).
    { unfold EntryFor in Hfound.
      destruct (list_find _ table) as [[i slot]|] eqn:Hfind; [|done].
      simpl in Hfound. subst slot.
      by apply list_find_Some in Hfind as (_ & [= ->] & _). }
    rewrite (EntryFor_fmap_kept Eval_Age_slot _ _ _
               Eval_Age_slot_keeps_key Hfound); [done|].
    subst key. simpl. unfold bytecode_is_old in Hyoung. by rewrite Hyoung.
  - intros info. rewrite Eval_Lookup_result. simpl.
    rewrite LookupEval_EntryFor.
    destruct (EntryFor (Eval_Age_slot <$> table) _)
      as [[key [| |info'|] cell]|] eqn:Hfound; try done.
    simpl. intros [= ->].
    apply (EntryFor_fmap_found _ _ _ _ Eval_Age_slot_keeps_key) in Hfound
      as ([[key' value' cell']|] & _ & Hslot & Hholds); [|done].
    unfold holds in Hholds. simpl in Hholds, Hslot.
    injection Hholds as ->. simpl in Hslot.
    destruct value' as [| |info'|]; try done.
    unfold bytecode_is_old.
    destruct (SharedFunctionInfo.HasBytecodeArray info'
              && SharedFunctionInfo.BytecodeArray_IsOld info') eqn:Hold;
      [done|].
    by simplify_eq.
Qed.
End SweepFacts.

(** * Further properties of the cache *)

Section CacheMore.
Import CompilationCache.
Variable kGenerations : nat.
Variable StrictEquals : Object → Object → bool.

Lemma LookupScript_New n source language_mode :
  CompilationCacheTable.LookupScript (CompilationCacheTable.New n) source
    language_mode = None.
Proof. by rewrite LookupScript_EntryFor, EntryFor_New. Qed.

Lemma LookupEval_New n source outer_info context language_mode position :
  CompilationCacheTable.LookupEval (CompilationCacheTable.New n) source
    outer_info context language_mode position = empty_InfoCellPair.
Proof. by rewrite LookupEval_EntryFor, EntryFor_New. Qed.

Lemma Script_Lookup_absent counters source details language_mode :
  CompilationCacheScript.Lookup StrictEquals None counters source details
    language_mode = (None, Increment_misses counters).
Proof.
  unfold CompilationCacheScript.Lookup, CompilationCacheEvalOrScript.GetTable.
  by rewrite LookupScript_New.
Qed.

Lemma Eval_Lookup_absent counters source outer_info context language_mode
    position :
  CompilationCacheEval.Lookup None counters source outer_info context
    language_mode position = (empty_InfoCellPair, Increment_misses counters).
Proof.
  unfold CompilationCacheEval.Lookup, CompilationCacheEvalOrScript.GetTable.
  by rewrite LookupEval_New.
Qed.

(** X7.  What the cache held is gone after [Clear], not hidden: in a
    cleared cache, and so in a cache that was disabled and enabled again,
    with the flag set every script, eval and regexp lookup misses and
    counts a miss; clearing, disabling and enabling change no counter. *)
Theorem Clear_forgets_every_entry this :
  let cleared := with_flag true (Clear kGenerations this) in
  EnableScriptAndEval (DisableScriptAndEval kGenerations this) = cleared
  ∧ counters cleared = counters this
  ∧ (∀ source details language_mode,
       LookupScript StrictEquals cleared source details language_mode
       = (None, with_counters (Increment_misses (counters this)) cleared))
  ∧ (∀ source outer_info context language_mode position,
       LookupEval cleared source outer_info context language_mode position
       = (empty_InfoCellPair,
          with_counters (Increment_misses (counters this)) cleared))
  ∧ (∀ source flags,
       (LookupRegExp kGenerations cleared source flags).1 = None
       ∧ counters (LookupRegExp kGenerations cleared source flags).2
         = Increment_misses (counters this)).
Proof.
  cbv zeta. split_and!; [done|done| | |].
  - intros. unfold LookupScript.
    cbn -[CompilationCacheScript.Lookup]. by rewrite Script_Lookup_absent.
  - intros. unfold LookupEval.
    cbn -[CompilationCacheEval.Lookup]. rewrite !Eval_Lookup_absent.
    by destruct (IsNativeContext context).
  - intros source flags. unfold LookupRegExp.
    cbn -[CompilationCacheRegExp.Lookup].
    destruct (Lookup_miss kGenerations
                (CompilationCacheRegExp.Clear kGenerations (reg_exp_ this))
                (counters this) source flags) as (tables' & -> & _); [|done].
    intros g _. unfold CompilationCacheRegExp.Clear.
    by rewrite probe_replicate_None.
Qed.

Lemma LookupEval_PutEval table source outer_info value context feedback_cell
    position outer_info' context' :
  SharedFunctionInfo.identity outer_info'
  = SharedFunctionInfo.identity outer_info →
  context_identity context' = context_identity context →
  CompilationCacheTable.LookupEval
    (CompilationCacheTable.PutEval table source outer_info value context
       feedback_cell position)
    source outer_info' context' (SharedFunctionInfo.language_mode value)
    position
  = mkInfoCellPair (Some value) (Some feedback_cell).
Proof.
  intros Houter Hcontext. unfold CompilationCacheTable.PutEval.
  rewrite LookupEval_EntryFor, EntryFor_Insert, Houter, Hcontext.
  by rewrite decide_True.
Qed.

(** X8.  What was put into an eval cache is found.  After [PutEval] from a
    context, [LookupEval] with the same source, enclosing function and
    position and with the language mode of the function stored, from a
    context of the same kind and with the same native context, returns that
    function with its feedback cell and counts a hit: the contextual cache
    is shared by the contexts of one native context.  A [PutEval] through
    one of the two eval caches changes no result of a lookup through the
    other. *)
Theorem Eval_Put_then_Lookup_returns_the_function
    this source outer_info context function_info feedback_cell position :
  enabled_script_and_eval_ this = true →
  let put :=
    PutEval this source outer_info context function_info feedback_cell
      position in
  (∀ context',
     IsNativeContext context' = IsNativeContext context →
     native_context context' = native_context context →
     LookupEval put source outer_info context'
       (SharedFunctionInfo.language_mode function_info) position
     = (mkInfoCellPair (Some function_info) (Some feedback_cell),
        with_counters (Increment_hits (counters this)) put))
  ∧ (∀ context' source' outer_info' language_mode' position',
       IsNativeContext context' ≠ IsNativeContext context →
       (LookupEval put source' outer_info' context' language_mode'
          position').1
       = (LookupEval this source' outer_info' context' language_mode'
            position').1).
Proof.
  intros Hon put. unfold put. clear put.
  destruct this as [c table_ eval_global eval_contextual tbls enabled].
  simpl in Hon. subst enabled. split.
  - intros context' Hkind Hnative.
    unfold LookupEval, PutEval, IsEnabledScriptAndEval. simpl.
    destruct context as [i|i n], context' as [i'|i' n']; simpl in *;
      try done; simplify_eq; simpl;
      unfold CompilationCacheEval.Lookup, CompilationCacheEval.Put; simpl;
      by rewrite LookupEval_PutEval.
  - intros context' source' outer_info' language_mode' position' Hkind.
    unfold LookupEval, PutEval, IsEnabledScriptAndEval.
    destruct context as [i|i n], context' as [i'|i' n'];
      cbn -[CompilationCacheEval.Lookup CompilationCacheEval.Put] in *;
      try done;
      by destruct (CompilationCacheEval.Lookup _ _ _ _ _ _ _).
Qed.

Lemma LookupScript_Remove table value source language_mode :
  (∀ info,
     CompilationCacheTable.LookupScript
       (CompilationCacheTable.Remove table value) source language_mode
     = Some info →
     SharedFunctionInfo.identity info ≠ SharedFunctionInfo.identity value)
  ∧ (∀ info,
       CompilationCacheTable.LookupScript table source language_mode
       = Some info →
       SharedFunctionInfo.identity info ≠ SharedFunctionInfo.identity value →
       CompilationCacheTable.LookupScript
         (CompilationCacheTable.Remove table value) source language_mode
       = Some info).
Proof.
  unfold CompilationCacheTable.Remove. rewrite !LookupScript_EntryFor. split.
  - intros info.
    destruct (EntryFor (_ <$> table) _) as [[key [| |info'|] cell]|]
      eqn:Hfound; try done.
    intros [= ->].
    apply (EntryFor_fmap_found _ _ _ _ (Remove_slot_keeps_key value))
      in Hfound as ([[key' [| |info'|] cell']|] & _ & Hslot & _);
      simpl in Hslot; try done.
    case_bool_decide; [done|]. by simplify_eq.
  - intros info.
    destruct (EntryFor table _) as [[key [| |info'|] cell]|] eqn:Hfound;
      try done.
    intros [= ->] Hother.
    rewrite (EntryFor_fmap_kept _ _ _ _ (Remove_slot_keeps_key value) Hfound);
      [done|].
    simpl. by rewrite bool_decide_eq_false_2.
Qed.

Lemma LookupEval_Remove table value source outer_info context language_mode
    position :
  (∀ info,
     shared (CompilationCacheTable.LookupEval
               (CompilationCacheTable.Remove table value) source outer_info
               context language_mode position) = Some info →
     SharedFunctionInfo.identity info ≠ SharedFunctionInfo.identity value)
  ∧ (∀ info,
       shared (CompilationCacheTable.LookupEval table source outer_info
                 context language_mode position) = Some info →
       SharedFunctionInfo.identity info ≠ SharedFunctionInfo.identity value →
       CompilationCacheTable.LookupEval
         (CompilationCacheTable.Remove table value) source outer_info context
         language_mode position
       = CompilationCacheTable.LookupEval table source outer_info context
           language_mode position).
Proof.
  unfold CompilationCacheTable.Remove. rewrite !LookupEval_EntryFor. split.
  - intros info.
    destruct (EntryFor (_ <$> table) _) as [[key [| |info'|] cell]|]
      eqn:Hfound; try done.
    intros [= ->].
    apply (EntryFor_fmap_found _ _ _ _ (Remove_slot_keeps_key value))
      in Hfound as ([[key' [| |info'|] cell']|] & _ & Hslot & _);
      simpl in Hslot; try done.
    case_bool_decide; [done|]. by simplify_eq.
  - intros info.
    destruct (EntryFor table _) as [[key [| |info'|] cell]|] eqn:Hfound;
      try done.
    intros [= ->] Hother.
    rewrite (EntryFor_fmap_kept _ _ _ _ (Remove_slot_keeps_key value) Hfound);
      [done|].
    simpl. by rewrite bool_decide_eq_false_2.
Qed.
End CacheMore.

Section CacheMore2.
Import CompilationCache.
Variable kGenerations : nat.
Variable StrictEquals : Object → Object → bool.

Lemma Script_Lookup_Remove (table_ : option CompilationCacheTable.t)
    function_info counters source details language_mode :
  let lookup (table_ : option CompilationCacheTable.t) :=
    (CompilationCacheScript.Lookup StrictEquals table_ counters source details
       language_mode).1 in
  let removed := CompilationCacheEvalOrScript.Remove table_ function_info in
  (∀ info, lookup removed = Some info →
           SharedFunctionInfo.identity info
           ≠ SharedFunctionInfo.identity function_info)
  ∧ (∀ info, lookup table_ = Some info →
             SharedFunctionInfo.identity info
             ≠ SharedFunctionInfo.identity function_info →
             lookup removed = Some info).
Proof.
  cbv beta zeta. rewrite !Script_Lookup_result.
  unfold CompilationCacheEvalOrScript.Remove,
    CompilationCacheEvalOrScript.GetTable.
  destruct table_ as [table|]; [|by rewrite LookupScript_New].
  destruct (LookupScript_Remove table function_info source language_mode)
    as [Hgone Hkept].
  split.
  - intros info.
    destruct (CompilationCacheTable.LookupScript
                (CompilationCacheTable.Remove table function_info) _ _)
      as [info'|] eqn:Hl; [|done].
    destruct (HasOrigin StrictEquals info' details); [|done].
    intros [= ->]. by apply Hgone.
  - intros info.
    destruct (CompilationCacheTable.LookupScript table _ _) as [info'|] eqn:Hl;
      [|done].
    destruct (HasOrigin StrictEquals info' details) eqn:Ho; [|done].
    intros [= ->] Hother. by rewrite (Hkept info eq_refl Hother), Ho.
Qed.

Lemma Eval_Lookup_Remove (table_ : option CompilationCacheTable.t)
    function_info counters source outer_info context language_mode position :
  let lookup (table_ : option CompilationCacheTable.t) :=
    (CompilationCacheEval.Lookup table_ counters source outer_info context
       language_mode position).1 in
  let removed := CompilationCacheEvalOrScript.Remove table_ function_info in
  (∀ info, shared (lookup removed) = Some info →
           SharedFunctionInfo.identity info
           ≠ SharedFunctionInfo.identity function_info)
  ∧ (∀ info, shared (lookup table_) = Some info →
             SharedFunctionInfo.identity info
             ≠ SharedFunctionInfo.identity function_info →
             lookup removed = lookup table_).
Proof.
  cbv beta zeta. rewrite !Eval_Lookup_result.
  unfold CompilationCacheEvalOrScript.Remove,
    CompilationCacheEvalOrScript.GetTable.
  destruct table_ as [table|]; [|by rewrite LookupEval_New].
  apply LookupEval_Remove.
Qed.

(** X9.  [Remove] forgets the function and nothing else.  With the flag
    cleared it changes nothing.  Otherwise no script or eval lookup returns
    the function afterwards, every lookup that returned another function
    returns it still, no table is allocated, and the regexp region, the
    counters and the flag are as before. *)
Theorem Remove_forgets_the_function_only this function_info :
  let removed := Remove this function_info in
  (enabled_script_and_eval_ this = false → removed = this)
  ∧ (counters removed = counters this
     ∧ reg_exp_ removed = reg_exp_ this
     ∧ enabled_script_and_eval_ removed = enabled_script_and_eval_ this
     ∧ (script_ this = None → script_ removed = None)
     ∧ (eval_global_ this = None → eval_global_ removed = None)
     ∧ (eval_contextual_ this = None → eval_contextual_ removed = None))
  ∧ (enabled_script_and_eval_ this = true →
     (∀ source details language_mode info,
        (LookupScript StrictEquals removed source details language_mode).1
        = Some info →
        SharedFunctionInfo.identity info
        ≠ SharedFunctionInfo.identity function_info)
     ∧ (∀ source outer_info context language_mode position info,
          shared (LookupEval removed source outer_info context language_mode
                    position).1 = Some info →
          SharedFunctionInfo.identity info
          ≠ SharedFunctionInfo.identity function_info)
     ∧ (∀ source details language_mode info,
          (LookupScript StrictEquals this source details language_mode).1
          = Some info →
          SharedFunctionInfo.identity info
          ≠ SharedFunctionInfo.identity function_info →
          (LookupScript StrictEquals removed source details language_mode).1
          = Some info)
     ∧ (∀ source outer_info context language_mode position info,
          shared (LookupEval this source outer_info context language_mode
                    position).1 = Some info →
          SharedFunctionInfo.identity info
          ≠ SharedFunctionInfo.identity function_info →
          (LookupEval removed source outer_info context language_mode
             position).1
          = (LookupEval this source outer_info context language_mode
               position).1)).
Proof.
  cbv zeta. destruct this as [c table_ eval_global eval_contextual tbls enabled].
  unfold Remove, IsEnabledScriptAndEval.
  cbn [enabled_script_and_eval_]. split; [|split].
  - by intros ->.
  - destruct enabled; simpl; split_and!; try done; by intros ->.
  - intros ->. cbn [negb].
    unfold LookupScript, LookupEval, IsEnabledScriptAndEval.
    cbn -[CompilationCacheScript.Lookup CompilationCacheEval.Lookup
          CompilationCacheEvalOrScript.Remove].
    split_and!.
    + intros source details language_mode info.
      pose proof (Script_Lookup_Remove table_ function_info c source details
                    language_mode) as [Hgone _]. cbv beta zeta in Hgone.
      destruct (CompilationCacheScript.Lookup _ _ _ _ _ _). apply Hgone.
    + intros source outer_info context language_mode position info.
      destruct (IsNativeContext context).
      * pose proof (Eval_Lookup_Remove eval_global function_info c source
                      outer_info context language_mode position) as [Hgone _].
        cbv beta zeta in Hgone.
        destruct (CompilationCacheEval.Lookup _ _ _ _ _ _ _). apply Hgone.
      * pose proof (Eval_Lookup_Remove eval_contextual function_info c source
                      outer_info (native_context context) language_mode
                      position) as [Hgone _].
        cbv beta zeta in Hgone.
        destruct (CompilationCacheEval.Lookup _ _ _ _ _ _ _). apply Hgone.
    + intros source details language_mode info.
      pose proof (Script_Lookup_Remove table_ function_info c source details
                    language_mode) as [_ Hkept]. cbv beta zeta in Hkept.
      destruct (CompilationCacheScript.Lookup _ _ _ _ _ _),
               (CompilationCacheScript.Lookup _ _ _ _ _ _). apply Hkept.
    + intros source outer_info context language_mode position info.
      destruct (IsNativeContext context).
      * pose proof (Eval_Lookup_Remove eval_global function_info c source
                      outer_info context language_mode position) as [_ Hkept].
        cbv beta zeta in Hkept.
        destruct (CompilationCacheEval.Lookup _ _ _ _ _ _ _),
                 (CompilationCacheEval.Lookup _ _ _ _ _ _ _). apply Hkept.
      * pose proof (Eval_Lookup_Remove eval_contextual function_info c source
                      outer_info (native_context context) language_mode
                      position) as [_ Hkept].
        cbv beta zeta in Hkept.
        destruct (CompilationCacheEval.Lookup _ _ _ _ _ _ _),
                 (CompilationCacheEval.Lookup _ _ _ _ _ _ _). apply Hkept.
Qed.

Lemma MarkCompactPrologue_iter flag n this :
  let aged := Nat.iter n (MarkCompactPrologue kGenerations flag) this in
  counters aged = counters this
  ∧ enabled_script_and_eval_ aged = enabled_script_and_eval_ this
  ∧ reg_exp_ aged
    = Nat.iter n (CompilationCacheRegExp.Age kGenerations) (reg_exp_ this)
  ∧ (flag = false → script_ aged = script_ this).
Proof.
  cbv zeta. induction n as [|n (Hc & He & Hr & Hs)]; simpl; [done|].
  split_and!; [done|done|by rewrite Hr|].
  intros ->. by rewrite <- Hs.
Qed.

(** X10.  A collection ages the cache and nothing else: any number of
    [MarkCompactPrologue] calls leaves the counters and the flag as they
    are, the script table too while script ageing is switched off, and
    ages the regexp region once per call, whatever the flag says.  After
    [kGenerations] calls or more, with no regexp put or lookup in between,
    [LookupRegExp] misses for every pattern. *)
Theorem MarkCompactPrologue_expires_every_pattern
    FLAG_isolate_script_cache_ageing n this :
  let aged :=
    Nat.iter n
      (MarkCompactPrologue kGenerations FLAG_isolate_script_cache_ageing)
      this in
  (counters aged = counters this
   ∧ enabled_script_and_eval_ aged = enabled_script_and_eval_ this
   ∧ reg_exp_ aged
     = Nat.iter n (CompilationCacheRegExp.Age kGenerations) (reg_exp_ this)
   ∧ (FLAG_isolate_script_cache_ageing = false →
      script_ aged = script_ this))
  ∧ (1 < kGenerations → length (reg_exp_ this) = kGenerations →
     kGenerations ≤ n →
     ∀ source flags,
       LookupRegExp kGenerations aged source flags
       = (None,
          mk (Increment_misses (counters this)) (script_ aged)
            (eval_global_ aged) (eval_contextual_ aged)
            (replicate kGenerations
               (Some (CompilationCacheTable.New kInitialCacheSize)))
            (enabled_script_and_eval_ this))).
Proof.
  cbv zeta.
  destruct (MarkCompactPrologue_iter FLAG_isolate_script_cache_ageing n this)
    as (Hc & He & Hr & Hs).
  split; [done|]. intros HkG Hlen Hn source flags.
  unfold LookupRegExp. rewrite Hc, He, Hr.
  rewrite iter_Age_all_absent by (done || lia).
  destruct (Lookup_miss kGenerations (replicate kGenerations None)
              (counters this) source flags) as (tables' & -> & Htab).
  { intros g _. by rewrite probe_replicate_None. }
  do 2 f_equal. apply list_eq. intros g. rewrite Htab. unfold probed.
  case_bool_decide.
  - by rewrite !lookup_replicate_2 by lia.
  - rewrite !(proj2 (lookup_ge_None _ _)); [done|..];
      rewrite length_replicate; lia.
Qed.

Lemma LookupScript_PutScript_other table source' language_mode' value source
    language_mode :
  (source', language_mode') ≠ (source, language_mode) →
  CompilationCacheTable.LookupScript
    (CompilationCacheTable.PutScript table source' language_mode' value)
    source language_mode
  = CompilationCacheTable.LookupScript table source language_mode.
Proof.
  intros Hne. unfold CompilationCacheTable.PutScript.
  rewrite !LookupScript_EntryFor, EntryFor_Insert.
  by rewrite decide_False by congruence.
Qed.

(** X11.  Scripts with another source or another language mode do not
    disturb each other: a put under one key changes nothing of what the
    lookup of another key returns and counts, also when the put allocates
    the table. *)
Theorem Script_Put_keeps_other_keys
    (table_ : option CompilationCacheTable.t) counters source' language_mode'
    function_info source details language_mode :
  (source', language_mode') ≠ (source, language_mode) →
  CompilationCacheScript.Lookup StrictEquals
    (CompilationCacheScript.Put table_ source' language_mode' function_info)
    counters source details language_mode
  = CompilationCacheScript.Lookup StrictEquals table_ counters source details
      language_mode.
Proof.
  intros Hne.
  unfold CompilationCacheScript.Lookup, CompilationCacheScript.Put.
  cbn [CompilationCacheEvalOrScript.GetTable].
  by rewrite LookupScript_PutScript_other.
Qed.
End CacheMore2.

(** * The marking barrier of a thread *)

Section MarkingBarrierFacts.
Import WriteBarrier.

(** X12.  [SetForThread] swaps the barrier of the calling thread: it
    returns the barrier that was current for the thread and makes the
    given one current; the barriers of the other threads are as before,
    so that no call of another thread changes what is current for this
    one; and a second call with the returned barrier gives back the
    barrier set and restores all the variables. *)
Theorem SetForThread_swaps_the_barrier_of_the_thread
    (current_marking_barrier : gmap nat nat) thread marking_barrier :
  let existing :=
    (SetForThread current_marking_barrier thread marking_barrier).1 in
  let after :=
    (SetForThread current_marking_barrier thread marking_barrier).2 in
  existing = CurrentMarkingBarrier current_marking_barrier thread
  ∧ CurrentMarkingBarrier after thread = marking_barrier
  ∧ (∀ other, other ≠ thread →
       CurrentMarkingBarrier after other
       = CurrentMarkingBarrier current_marking_barrier other)
  ∧ (∀ calls : list (nat * option nat),
       Forall (λ call, call.1 ≠ thread) calls →
       CurrentMarkingBarrier (SetForThread_calls calls after) thread
       = marking_barrier)
  ∧ SetForThread after thread existing
    = (marking_barrier, current_marking_barrier).
Proof.
  cbv zeta. unfold SetForThread, CurrentMarkingBarrier. simpl.
  split_and!.
  - done.
  - by rewrite lookup_partial_alter_eq.
  - intros other Hother. by rewrite lookup_partial_alter_ne.
  - intros calls Hcalls.
    assert (Hgen : ∀ s : gmap nat nat,
              SetForThread_calls calls s !! thread = s !! thread).
    { unfold SetForThread_calls.
      induction Hcalls as [|call calls Hcall _ IH]; intros s; simpl; [done|].
      by rewrite IH, lookup_partial_alter_ne. }
    by rewrite Hgen, lookup_partial_alter_eq.
  - rewrite lookup_partial_alter_eq. f_equal.
    apply map_eq. intros other. rewrite !lookup_partial_alter.
    by case_decide; subst.
Qed.
End MarkingBarrierFacts.

(** * The further properties at concrete inputs *)

(** X1 with two generations and traffic on two other patterns. *)
Lemma RegExp_Put_then_Lookup_returns_the_data_witness :
  let ops := [OpPut "b+" 0%Z [Smi 2]; OpLookup "c+" 0%Z] in
  let state :=
    foldl (RegExpOp_run 2)
      (CompilationCacheRegExp.Put [None; None] "a+" 0%Z [Smi 1],
       mkCounters 0 0) ops in
  (0 < 2 ∧ 0 < length [None; (None : option CompilationCacheTable.t)]
   ∧ Forall (λ op, RegExpOp_key op ≠ ("a+", 0%Z)) ops)
  ∧ CompilationCacheRegExp.Lookup 2 state.1 state.2 "a+" 0%Z
    = (Some [Smi 1], state.1, Increment_hits state.2).
Proof.
  intros ops state.
  assert (Hops : Forall (λ op, RegExpOp_key op ≠ ("a+", 0%Z)) ops)
    by (repeat constructor; simpl; congruence).
  split; [split_and!; [lia|simpl; lia|exact Hops]|].
  exact (RegExp_Put_then_Lookup_returns_the_data 2 [None; None]
           (mkCounters 0 0) "a+" 0%Z [Smi 1] ops ltac:(lia)
           ltac:(simpl; lia) Hops).
Defined.

(** X2 with a put and a lookup of another pattern. *)
Lemma RegExp_Lookup_ignores_other_keys_witness :
  let ops := [OpPut "b+" 0%Z [Smi 2]; OpLookup "b+" 0%Z] in
  let state :=
    (CompilationCacheRegExp.Put [None; None] "a+" 0%Z [Smi 1],
     mkCounters 0 0) in
  Forall (λ op, RegExpOp_key op ≠ ("a+", 0%Z)) ops
  ∧ (CompilationCacheRegExp.Lookup 2 (foldl (RegExpOp_run 2) state ops).1
       (mkCounters 5 5) "a+" 0%Z).1.1
    = (CompilationCacheRegExp.Lookup 2 state.1 (mkCounters 0 0) "a+" 0%Z).1.1.
Proof.
  intros ops state.
  assert (Hops : Forall (λ op, RegExpOp_key op ≠ ("a+", 0%Z)) ops)
    by (repeat constructor; simpl; congruence).
  split; [exact Hops|].
  exact (RegExp_Lookup_ignores_other_keys 2 state ops (mkCounters 0 0)
           (mkCounters 5 5) "a+" 0%Z Hops).
Defined.

(** X4 with three generations: found after two passes, gone after three. *)
Lemma RegExp_entry_outlives_fewer_than_kGenerations_ages_witness :
  let tbls := CompilationCacheRegExp.Put [None; None; None] "a+" 0%Z [Smi 1] in
  (1 < 3 ∧ length tbls = 3 ∧ probe tbls 0 "a+" 0%Z = DataValue [Smi 1])
  ∧ (∃ tables',
       CompilationCacheRegExp.Lookup 3
         (Nat.iter 2 (CompilationCacheRegExp.Age 3) tbls) (mkCounters 0 0)
         "a+" 0%Z
       = (Some [Smi 1], tables', Increment_hits (mkCounters 0 0))
       ∧ probe tables' 0 "a+" 0%Z = DataValue [Smi 1])
  ∧ Nat.iter 3 (CompilationCacheRegExp.Age 3) tbls = replicate 3 None.
Proof.
  intros tbls.
  split; [split_and!; [lia|reflexivity|reflexivity]|].
  destruct (RegExp_entry_outlives_fewer_than_kGenerations_ages 3 tbls
              (mkCounters 0 0) "a+" 0%Z [Smi 1] ltac:(lia) eq_refl eq_refl)
    as [Hlives Hgone].
  split; [exact (Hlives 2 ltac:(lia))|].
  exact (proj1 (Hgone 3 ltac:(lia))).
Defined.

(** X5 on a table with a function whose bytecode is not old and one whose
    bytecode is old. *)
Lemma Script_Age_removes_old_functions_only_witness :
  let table_ :=
    CompilationCacheScript.Put
      (CompilationCacheScript.Put None "var x" kSloppy function_of_A)
      "var y" kSloppy old_function in
  let lookup (table_ : option CompilationCacheTable.t) source :=
    (CompilationCacheScript.Lookup StrictEquals_sample table_ (mkCounters 0 0)
       source request_of_unnamed_B kSloppy).1 in
  (lookup table_ "var x" = Some function_of_A
   ∧ bytecode_is_old function_of_A = false
   ∧ lookup table_ "var y" = Some old_function)
  ∧ lookup (CompilationCacheScript.Age true table_) "var x"
    = Some function_of_A
  ∧ lookup (CompilationCacheScript.Age true table_) "var y" = None.
Proof.
  intros table_ lookup.
  split; [split_and!; vm_compute; reflexivity|].
  destruct (Script_Age_removes_old_functions_only StrictEquals_sample true
              table_ (mkCounters 0 0) "var x" request_of_unnamed_B kSloppy)
    as (_ & _ & Hkept & _).
  split; [exact (Hkept function_of_A eq_refl eq_refl)|].
  vm_compute; reflexivity.
Defined.

(** X6 on an eval table with one function whose bytecode is not old. *)
Lemma Eval_Age_removes_old_functions_only_witness :
  let table_ :=
    CompilationCacheEval.Put None "1+1" function_of_A function_of_A
      (NativeContext 0) 9 0%Z in
  let lookup (table_ : option CompilationCacheTable.t) :=
    (CompilationCacheEval.Lookup table_ (mkCounters 0 0) "1+1" function_of_A
       (NativeContext 0) kSloppy 0%Z).1 in
  (shared (lookup table_) = Some function_of_A
   ∧ bytecode_is_old function_of_A = false)
  ∧ lookup (CompilationCacheEval.Age table_) = lookup table_.
Proof.
  intros table_ lookup.
  split; [split; vm_compute; reflexivity|].
  destruct (Eval_Age_removes_old_functions_only table_ (mkCounters 0 0) "1+1"
              function_of_A (NativeContext 0) kSloppy 0%Z)
    as (_ & Hkept & _).
  exact (Hkept function_of_A eq_refl eq_refl).
Defined.

(** X8 with two scoped contexts of one native context. *)
Lemma Eval_Put_then_Lookup_returns_the_function_witness :
  let this := empty_cache 2 (mkCounters 0 0) in
  let put :=
    CompilationCache.PutEval this "1+1" function_of_A (ScopedContext 5 1)
      function_of_A 9 0%Z in
  (CompilationCache.enabled_script_and_eval_ this = true
   ∧ IsNativeContext (ScopedContext 6 1) = IsNativeContext (ScopedContext 5 1)
   ∧ native_context (ScopedContext 6 1) = native_context (ScopedContext 5 1))
  ∧ CompilationCache.LookupEval put "1+1" function_of_A (ScopedContext 6 1)
      kSloppy 0%Z
    = (mkInfoCellPair (Some function_of_A) (Some 9),
       with_counters (mkCounters 1 0) put).
Proof.
  intros this put.
  split; [split_and!; reflexivity|].
  destruct (Eval_Put_then_Lookup_returns_the_function this "1+1"
              function_of_A (ScopedContext 5 1) function_of_A 9 0%Z eq_refl)
    as [Hfound _].
  exact (Hfound (ScopedContext 6 1) eq_refl eq_refl).
Defined.

(** X9 on a cache with two scripts, one of which is removed. *)
Lemma Remove_forgets_the_function_only_witness :
  let this :=
    CompilationCache.PutScript
      (CompilationCache.PutScript (empty_cache 2 (mkCounters 0 0)) "var x"
         kSloppy function_of_A)
      "var y" kSloppy (function_named "a.js" 0) in
  let removed := CompilationCache.Remove this function_of_A in
  (CompilationCache.enabled_script_and_eval_ this = true
   ∧ (CompilationCache.LookupScript StrictEquals_sample this "var y"
        (request_named "a.js" 0) kSloppy).1 = Some (function_named "a.js" 0)
   ∧ SharedFunctionInfo.identity (function_named "a.js" 0) = 2
   ∧ SharedFunctionInfo.identity function_of_A = 1)
  ∧ (CompilationCache.LookupScript StrictEquals_sample removed "var y"
       (request_named "a.js" 0) kSloppy).1 = Some (function_named "a.js" 0)
  ∧ (CompilationCache.LookupScript StrictEquals_sample removed "var x"
       request_of_unnamed_B kSloppy).1 = None.
Proof.
  intros this removed.
  split; [split_and!; vm_compute; reflexivity|].
  destruct (Remove_forgets_the_function_only StrictEquals_sample this
              function_of_A) as (_ & _ & Hon).
  destruct (Hon eq_refl) as (_ & _ & Hkept & _).
  split.
  - apply (Hkept "var y" (request_named "a.js" 0) kSloppy
             (function_named "a.js" 0)); [vm_compute; reflexivity|].
    simpl. lia.
  - vm_compute; reflexivity.
Defined.

(** X10 with two generations and two collections. *)
Lemma MarkCompactPrologue_expires_every_pattern_witness :
  let this :=
    CompilationCache.PutRegExp (empty_cache 2 (mkCounters 0 0)) "a+" 0%Z
      [Smi 1] in
  (1 < 2 ∧ length (CompilationCache.reg_exp_ this) = 2 ∧ 2 ≤ 2)
  ∧ (CompilationCache.LookupRegExp 2 this "a+" 0%Z).1 = Some [Smi 1]
  ∧ (CompilationCache.LookupRegExp 2
       (Nat.iter 2 (CompilationCache.MarkCompactPrologue 2 true) this)
       "a+" 0%Z).1 = None.
Proof.
  intros this.
  split; [split_and!; [lia|reflexivity|lia]|].
  split; [vm_compute; reflexivity|].
  destruct (MarkCompactPrologue_expires_every_pattern 2 true 2 this)
    as [_ Hexpired].
  by rewrite (Hexpired ltac:(lia) eq_refl ltac:(lia) "a+" 0%Z).
Defined.

(** X11 for two sources. *)
Lemma Script_Put_keeps_other_keys_witness :
  let table_ := CompilationCacheScript.Put None "var x" kSloppy function_of_A in
  ("var y", kSloppy) ≠ ("var x", kSloppy)
  ∧ CompilationCacheScript.Lookup StrictEquals_sample
      (CompilationCacheScript.Put table_ "var y" kSloppy old_function)
      (mkCounters 0 0) "var x" request_of_unnamed_B kSloppy
    = CompilationCacheScript.Lookup StrictEquals_sample table_
        (mkCounters 0 0) "var x" request_of_unnamed_B kSloppy.
Proof.
  intros table_.
  assert (Hne : ("var y", kSloppy) ≠ ("var x", kSloppy)) by congruence.
  split; [exact Hne|].
  exact (Script_Put_keeps_other_keys StrictEquals_sample table_
           (mkCounters 0 0) "var y" kSloppy old_function "var x"
           request_of_unnamed_B kSloppy Hne).
Defined.
